(** * llm-appps-Test: intent classifier and location resolver

    A shallow embedding of the two pieces of logic of the repository:

    - the keyword / oracle classifier of the [POST /api/ask] handler
      (backend server, [queryLLM] and the handler body), and
    - [GeolocationService] of the frontend ([getCurrentLocation] and its
      tiers, the cache, [watchPosition], [getDistance]).

    Conventions.
    - A JavaScript string is a list of code units; the model keeps the code
      units 0..255 (every literal of the source is ASCII).
    - [async] functions that can reject are computations in a small
      state-and-exception monad [Eff]; the state carries what the code
      mutates and a log of the calls made to outside collaborators.
    - JavaScript numbers that are only stored and copied (coordinates) are
      rationals; millisecond clocks are integers; [getDistance] is computed
      in exact real arithmetic. *)

From Stdlib Require Import List Ascii String Bool Arith ZArith NArith QArith Lia.
From Stdlib Require Import DecimalString Reals Lra Qreals Machin.
Import ListNotations.

Set Implicit Arguments.

(* ===================================================================== *)
(** * JavaScript strings *)
(* ===================================================================== *)

Module JS.

Definition str := list ascii.

(** String literal of the source. *)
Definition lit (s : string) : str := list_ascii_of_string s.

Definition code (c : ascii) : N := N_of_ascii c.

(** [String.prototype.toLowerCase] on code units 0..255: A-Z and the
    Latin-1 capitals (except the multiplication sign) move by 32. *)
Definition lowerChar (c : ascii) : ascii :=
  let n := code c in
  if ((65 <=? n) && (n <=? 90) || (192 <=? n) && (n <=? 222) && negb (n =? 215))%N
  then ascii_of_N (n + 32) else c.

Definition toLowerCase (s : str) : str := map lowerChar s.

(** White space and line terminators removed by [trim]:
    TAB, LF, VT, FF, CR, SP and NBSP. *)
Definition isSpace (c : ascii) : bool :=
  let n := code c in
  ((9 <=? n) && (n <=? 13) || (n =? 32) || (n =? 160))%N.

Fixpoint trimStart (s : str) : str :=
  match s with
  | c :: s' => if isSpace c then trimStart s' else s
  | [] => []
  end.

Definition trimEnd (s : str) : str := rev (trimStart (rev s)).

Definition trim (s : str) : str := trimEnd (trimStart s).

(** [s.slice(0, n)] for [n >= 0]. *)
Definition slice0 (n : nat) (s : str) : str := firstn n s.

Fixpoint str_eqb (a b : str) : bool :=
  match a, b with
  | [], [] => true
  | x :: a', y :: b' => Ascii.eqb x y && str_eqb a' b'
  | _, _ => false
  end.

(** [s.startsWith(p)]. *)
Fixpoint startsWith (p s : str) : bool :=
  match p, s with
  | [], _ => true
  | x :: p', y :: s' => Ascii.eqb x y && startsWith p' s'
  | _ :: _, [] => false
  end.

(** Leftmost occurrence of the literal [p] in [s]: the text before it and
    the text after it.  This is what [indexOf], [includes] and a regular
    expression that starts with a literal all search for. *)
Fixpoint findFirst (p s : str) : option (str * str) :=
  if startsWith p s then Some ([], skipn (List.length p) s)
  else match s with
       | [] => None
       | c :: s' =>
           match findFirst p s' with
           | Some (pre, post) => Some (c :: pre, post)
           | None => None
           end
       end.

(** [s.includes(p)]. *)
Definition includes (s p : str) : bool :=
  match findFirst p s with Some _ => true | None => false end.

(** Canonicalisation of a code unit under the [i] flag (no [u] flag):
    the upper-case image when it is again one code unit of the model. *)
Definition canon (c : ascii) : ascii :=
  let n := code c in
  if ((97 <=? n) && (n <=? 122) || (224 <=? n) && (n <=? 254) && negb (n =? 247))%N
  then ascii_of_N (n - 32) else c.

(** [/a1|a2|...|an/i.test(s)] for literal alternatives: some alternative
    occurs in [s] up to case ([s.match(re)] is truthy exactly then). *)
Definition matchAltI (alts : list str) (s : str) : bool :=
  existsb (fun a => includes (map canon s) (map canon a)) alts.

(** Longest prefix whose code units all satisfy [f] (a greedy [[...]*]). *)
Fixpoint takeWhile (f : ascii -> bool) (s : str) : str :=
  match s with
  | c :: s' => if f c then c :: takeWhile f s' else []
  | [] => []
  end.

Fixpoint dropWhile (f : ascii -> bool) (s : str) : str :=
  match s with
  | c :: s' => if f c then dropWhile f s' else s
  | [] => []
  end.

(** The negated class of the marker regex: any code unit but LF and the
    double quote (code 34). *)
Definition notNewlineOrQuote (c : ascii) : bool :=
  negb (code c =? 10)%N && negb (code c =? 34)%N.

(** What [.] matches: anything but a line terminator (LF, CR). *)
Definition dot (c : ascii) : bool :=
  negb (code c =? 10)%N && negb (code c =? 13)%N.

(** JavaScript truthiness of a string-or-null value. *)
Definition truthy (v : option str) : bool :=
  match v with
  | Some (_ :: _) => true
  | _ => false
  end.

(** A non-empty string without white space. *)
Definition solid (p : str) : Prop :=
  p <> [] /\ Forall (fun c => isSpace c = false) p.

End JS.

Import JS.

(* ===================================================================== *)
(** * Effects: mutable state, exceptions, awaited promises *)
(* ===================================================================== *)

Module Effects.

(** How a function body (or an awaited promise) ends: with a value, or
    with a thrown [Error] (a rejected promise), of which the model keeps
    the message. *)
Inductive Outcome (A : Type) : Type :=
| Returned (a : A)
| Thrown (message : str).

Arguments Thrown {A} message.

(** A computation over the mutable world [W].  The world is not rolled
    back when an exception is thrown. *)
Definition Eff (W A : Type) : Type := W -> Outcome A * W.

Definition ret {W A} (a : A) : Eff W A := fun w => (Returned a, w).

Definition throw {W A} (message : str) : Eff W A := fun w => (Thrown message, w).

Definition bind {W A B} (m : Eff W A) (k : A -> Eff W B) : Eff W B :=
  fun w =>
    match m w with
    | (Returned a, w') => k a w'
    | (Thrown e, w') => (Thrown e, w')
    end.

(** [try { m } catch (e) { h e }]. *)
Definition tryCatch {W A} (m : Eff W A) (h : str -> Eff W A) : Eff W A :=
  fun w =>
    match m w with
    | (Returned a, w') => (Returned a, w')
    | (Thrown e, w') => h e w'
    end.

Definition get {W} : Eff W W := fun w => (Returned w, w).

Definition modify {W} (f : W -> W) : Eff W unit := fun w => (Returned tt, f w).

End Effects.

Import Effects.

Declare Scope eff_scope.
Delimit Scope eff_scope with eff.
Notation "x <- m ;; k" := (bind m (fun x => k))
  (at level 61, m at next level, right associativity) : eff_scope.
Notation "m ;;; k" := (bind m (fun _ => k))
  (at level 61, right associativity) : eff_scope.

(* ===================================================================== *)
(** * Backend: the intent classifier of [POST /api/ask] *)
(* ===================================================================== *)

Module Server.

Local Open Scope eff_scope.
Local Open Scope list_scope.

(** The double quote, code unit 34. *)
Definition dq : str := [ascii_of_N 34].

(** ** The oracle collaborators *)

(** What an [axios.post] to one of the two endpoints does: it rejects
    (network error, time-out after 15 s, non-2xx status), or it resolves
    with a body in which the field the code reads
    ([data.choices[0].message.content], [data.response]) is absent or is
    a string. *)
Inductive HttpResult : Type :=
| HttpError (message : str)
| HttpOk (field : option str).

Record Oracle : Type := {
  openWebUI : str -> HttpResult;   (* POST <OPEN_WEBUI_URL>/api/v1/chat/completions *)
  ollama : str -> HttpResult       (* POST http://localhost:11434/api/generate *)
}.

(** The outbound calls, in the order they are made. *)
Inductive Call : Type :=
| PostOpenWebUI (prompt : str)
| PostOllama (prompt : str).

Definition Log := list Call.

Definition post (c : Call) (r : HttpResult) : Eff Log (option str) :=
  fun log =>
    match r with
    | HttpError e => (Thrown e, log ++ [c])
    | HttpOk f => (Returned f, log ++ [c])
    end.

(** [sanitizeInput]: the argument is a string here, so only
    [input.trim().slice(0, 500)] remains. *)
Definition sanitizeInput (input : str) : str := slice0 500 (trim input).

(** [queryLLM]: Open WebUI first, Ollama when that throws, a fixed
    sentence when both throw. *)
Definition queryLLM (o : Oracle) (prompt : str) : Eff Log str :=
  let sanitizedPrompt := sanitizeInput prompt in
  if negb (truthy (Some sanitizedPrompt)) then
    ret (lit "Invalid input provided")
  else
    tryCatch
      (content <- post (PostOpenWebUI sanitizedPrompt) (openWebUI o sanitizedPrompt) ;;
       if truthy content then
         match content with Some c => ret c | None => ret [] end
       else throw (lit "Invalid response format from Open WebUI"))
      (fun openWebUIError =>
         tryCatch
           (response <- post (PostOllama sanitizedPrompt) (ollama o sanitizedPrompt) ;;
            if truthy response then
              match response with Some c => ret c | None => ret [] end
            else throw (lit "Invalid response format from Ollama"))
           (fun ollamaError =>
              ret (lit "LLM service unavailable. Please try again later."))).

(** ** The handler *)

Definition marker : str := lit "LOCATION_SEARCH:".

(** [llmResponse.match(re)] for the marker regex, the literal
    LOCATION_SEARCH: followed by a capture group of zero or more code
    units other than LF and the double quote: the capture group of the
    leftmost match, [None] for [null]. *)
Definition matchMarker (s : str) : option str :=
  match findFirst marker s with
  | Some (_, post) => Some (takeWhile notNewlineOrQuote post)
  | None => None
  end.

(** [llmResponse.replace(re, '')] for the regex made of the literal
    LOCATION_SEARCH: followed by a greedy run of [.]: without the [g]
    flag only the leftmost match is replaced, and the run of [.] stops
    at the end of the line. *)
Definition replaceMarker (s : str) : str :=
  match findFirst marker s with
  | Some (pre, post) => pre ++ dropWhile dot post
  | None => s
  end.

(** The alternatives of the five keyword regexes (all carry the [i]
    flag). *)
Definition restaurantWords : list str :=
  map lit ["restoran"; "restaurant"; "makan"; "kuliner"; "tempat makan";
           "warung"; "cafe"; "gultik"]%string.
Definition pharmacyWords : list str :=
  map lit ["apotek"; "pharmacy"; "obat"; "farmasi"]%string.
Definition gasStationWords : list str :=
  map lit ["spbu"; "gas station"; "bensin"; "pertamina"; "shell"; "pom"]%string.
Definition hospitalWords : list str :=
  map lit ["rumah sakit"; "hospital"; "rs "; "klinik"]%string.
Definition hotelWords : list str :=
  map lit ["hotel"; "penginapan"; "homestay"]%string.

(** The keyword chain: the values of [searchType] and [responseText]
    after the [if / else if] cascade, for the normalised message. *)
Definition ruleChain (normalizedMessage : str) : option str * str :=
  if includes normalizedMessage (lit "atm") then
    (Some (lit "ATM"), lit "Saya akan carikan ATM untuk Anda.")
  else if matchAltI restaurantWords normalizedMessage then
    (Some (lit "restaurants"), lit "Saya akan carikan restoran untuk Anda.")
  else if matchAltI pharmacyWords normalizedMessage then
    (Some (lit "pharmacy"), lit "Saya akan carikan apotek untuk Anda.")
  else if matchAltI gasStationWords normalizedMessage then
    (Some (lit "gas station"), lit "Saya akan carikan SPBU untuk Anda.")
  else if matchAltI hospitalWords normalizedMessage then
    (Some (lit "hospitals"), lit "Saya akan carikan rumah sakit untuk Anda.")
  else if matchAltI hotelWords normalizedMessage then
    (Some (lit "hotels"), lit "Saya akan carikan hotel untuk Anda.")
  else
    (None, lit "Saya akan membantu Anda.").

(** The prompt of the template literal. *)
Definition promptFor (message : str) : str :=
  lit "Analyze: " ++ dq ++ message ++ dq
  ++ lit ". If location search, respond: " ++ dq
  ++ lit "Saya akan carikan [item] untuk Anda. LOCATION_SEARCH:[type]" ++ dq
  ++ lit " where type is ATM, restaurants, pharmacy, gas station, hospitals, or hotels. If not location search, respond helpfully in Indonesian.".

(** The JSON body sent back ([timestamp] and the two map URLs, which are
    functions of [searchQuery], are left out). *)
Record Reply : Type := {
  reply : str;
  userMessage : str;
  mapData : option str          (* [mapData.searchQuery], [None] for null *)
}.

Inductive Response : Type :=
| Json200 (body : Reply)
| Json500 (error : str).

(** The part of the oracle branch inside the inner [try]. *)
Definition askOracle (o : Oracle) (message : str) (searchType : option str)
  : Eff Log (str * option str) :=
  tryCatch
    (llmResponse <- queryLLM o (promptFor message) ;;
     if includes llmResponse marker then
       match matchMarker llmResponse with
       | Some m1 => ret (llmResponse, Some (trim m1))
       | None => ret (llmResponse, searchType)
       end
     else ret (llmResponse, searchType))
    (fun error => ret (lit "Maaf, silakan coba lagi.", searchType)).

(** The handler body once validation has passed, for the validated
    [message] of the request. *)
Definition ask (o : Oracle) (message : str) : Eff Log Response :=
  tryCatch
    (let normalizedMessage := trim (toLowerCase message) in
     let '(searchType0, responseText) := ruleChain normalizedMessage in
     r <- (if negb (truthy searchType0) then askOracle o message searchType0
           else ret (responseText ++ lit " LOCATION_SEARCH:"
                       ++ match searchType0 with Some t => t | None => [] end,
                     searchType0)) ;;
     let '(llmResponse, searchType) := r in
     let mapData := if truthy searchType then searchType else None in
     let cleanResponse := trim (replaceMarker llmResponse) in
     ret (Json200 {| reply := cleanResponse;
                     userMessage := message;
                     mapData := mapData |}))
    (fun error => ret (Json500 (lit "Internal server error. Please try again later."))).

(** One request: the response and the oracle calls it made. *)
Definition handle (o : Oracle) (message : str) : Outcome Response * Log :=
  ask o message [].

End Server.

(* ===================================================================== *)
(** * Frontend: [GeolocationService] *)
(* ===================================================================== *)

Module Geo.

Local Open Scope eff_scope.
Local Open Scope list_scope.
Local Open Scope Z_scope.

(** ** Data *)

Inductive Source : Type := gps | network | ip | fallback.

(** [LocationCoords]. *)
Record LocationCoords : Type := {
  lat : Q;
  lng : Q;
  accuracy : option Q;
  source : Source
}.

(** [GeolocationPosition.coords], the three members the code reads. *)
Record Position : Type := {
  latitude : Q;
  longitude : Q;
  coordsAccuracy : Q
}.

(** [GeolocationPositionError]; the codes 1, 2 and 3 are
    PERMISSION_DENIED, POSITION_UNAVAILABLE and TIMEOUT. *)
Record PositionError : Type := {
  code : Z;
  message : str
}.

(** [LocationError], what [watchPosition] hands to its error callback. *)
Record LocationError : Type := {
  errCode : Z;
  errMessage : str;
  errSource : str
}.

Record PositionOptions : Type := {
  enableHighAccuracy : bool;
  timeout : Z;
  maximumAge : Z
}.

(** ** The browser *)

(** What happens to one [getCurrentPosition] request while the timer the
    service races it against is pending: the success callback runs, the
    error callback runs, or the service's timer fires first. *)
Inductive GeoReply : Type :=
| OnSuccess (position : Position)
| OnError (error : PositionError)
| TimerFirst.

(** Body of the [ipapi.co] answer: [response.json()] rejects, or gives an
    object whose [latitude] and [longitude] are absent or numbers. *)
Inductive IpBody : Type :=
| JsonRejected (message : str)
| JsonData (latitude longitude : option Q).

(** [await fetch(...)]: rejected, or resolved with [ok], [status] and a
    body.  The [timeout] member put in the init object is not an option of
    [fetch]; the await is taken to settle. *)
Inductive FetchResult : Type :=
| FetchRejected (message : str)
| FetchResolved (ok : bool) (status : Z) (body : IpBody).

Record Browser : Type := {
  geolocation : option (PositionOptions -> GeoReply); (* navigator.geolocation *)
  watchId : Z;                        (* id given by geolocation.watchPosition *)
  fetchIp : FetchResult;              (* fetch('https://ipapi.co/json/') *)
  timeZone : option str;              (* resolvedOptions().timeZone, None when Intl throws *)
  nowAtCheck : Z;                     (* Date.now() read by isCacheValid / restoreFromCache *)
  nowAtUpdate : Z;                    (* Date.now() read by updateCache *)
  storageThrows : bool                (* localStorage access throws *)
}.

(** Requests made to positioning sources, in order. *)
Inductive SourceCall : Type :=
| GetCurrentPosition (options : PositionOptions)
| WatchPosition (options : PositionOptions)
| FetchIp.

(** The singleton's fields, the [lastKnownLocation] entry of
    [localStorage] (the record that [JSON.stringify] wrote), and the log
    of source calls. *)
Record World : Type := {
  cachedLocation : option LocationCoords;
  cacheTimestamp : Z;
  localStorage : option (LocationCoords * Z);
  calls : list SourceCall
}.

Definition initial : World :=
  {| cachedLocation := None; cacheTimestamp := 0; localStorage := None; calls := [] |}.

Definition CACHE_DURATION : Z := 5 * 60 * 1000.

Definition jakarta : LocationCoords :=
  {| lat := -6.2088; lng := 106.8456; accuracy := None; source := fallback |}.
Definition surabaya : LocationCoords :=
  {| lat := -7.2575; lng := 112.7521; accuracy := None; source := fallback |}.
Definition bandung : LocationCoords :=
  {| lat := -6.9175; lng := 107.6191; accuracy := None; source := fallback |}.
Definition medan : LocationCoords :=
  {| lat := 3.5952; lng := 98.6722; accuracy := None; source := fallback |}.
Definition semarang : LocationCoords :=
  {| lat := -6.9667; lng := 110.4167; accuracy := None; source := fallback |}.

Definition logCall (c : SourceCall) : Eff World unit :=
  modify (fun w => {| cachedLocation := cachedLocation w;
                      cacheTimestamp := cacheTimestamp w;
                      localStorage := localStorage w;
                      calls := calls w ++ [c] |}).

(** ** Cache *)

(** [isCacheValid]. *)
Definition isCacheValid (b : Browser) (w : World) : bool :=
  match cachedLocation w with
  | Some _ => nowAtCheck b - cacheTimestamp w <? CACHE_DURATION
  | None => false
  end.

(** [updateCache]: both fields are assigned, then the entry is written to
    [localStorage] inside a [try] whose [catch] only logs. *)
Definition updateCache (b : Browser) (location : LocationCoords) : Eff World unit :=
  modify (fun w =>
    {| cachedLocation := Some location;
       cacheTimestamp := nowAtUpdate b;
       localStorage := if storageThrows b then localStorage w
                       else Some (location, nowAtUpdate b);
       calls := calls w |}).

(** [restoreFromCache]. *)
Definition restoreFromCache (b : Browser) : Eff World (option LocationCoords) :=
  fun w =>
    if storageThrows b then (Returned None, w)
    else match localStorage w with
         | None => (Returned None, w)
         | Some (location, timestamp) =>
             if nowAtCheck b - timestamp <? 30 * 60 * 1000 then
               (Returned (Some location),
                {| cachedLocation := Some location;
                   cacheTimestamp := timestamp;
                   localStorage := localStorage w;
                   calls := calls w |})
             else (Returned None, w)
         end.

(** [clearCache]. *)
Definition clearCache (b : Browser) : Eff World unit :=
  modify (fun w =>
    {| cachedLocation := None;
       cacheTimestamp := 0;
       localStorage := if storageThrows b then localStorage w else None;
       calls := calls w |}).

(** ** Tiers *)

(** [formatGeolocationError], the message of the [Error] it builds. *)
Definition formatGeolocationError (error : PositionError) : str :=
  if code error =? 1 then lit "Location access denied by user"
  else if code error =? 2 then lit "Location information unavailable"
  else if code error =? 3 then lit "Location request timed out"
  else if truthy (Some (message error)) then message error
  else lit "Unknown geolocation error".

Definition gpsOptions : PositionOptions :=
  {| enableHighAccuracy := true; timeout := 10000; maximumAge := 2 * 60 * 1000 |}.

Definition networkOptions : PositionOptions :=
  {| enableHighAccuracy := false; timeout := 5000; maximumAge := 5 * 60 * 1000 |}.

(** [getGPSLocation]. *)
Definition getGPSLocation (b : Browser) : Eff World LocationCoords :=
  match geolocation b with
  | None => throw (lit "Geolocation not supported")
  | Some getCurrentPosition =>
      logCall (GetCurrentPosition gpsOptions) ;;;
      match getCurrentPosition gpsOptions with
      | OnSuccess position =>
          ret {| lat := latitude position;
                 lng := longitude position;
                 accuracy := Some (coordsAccuracy position);
                 source := gps |}
      | OnError error => throw (formatGeolocationError error)
      | TimerFirst => throw (lit "GPS timeout after 10 seconds")
      end
  end.

(** [getNetworkLocation]. *)
Definition getNetworkLocation (b : Browser) : Eff World LocationCoords :=
  match geolocation b with
  | None => throw (lit "Geolocation not supported")
  | Some getCurrentPosition =>
      logCall (GetCurrentPosition networkOptions) ;;;
      match getCurrentPosition networkOptions with
      | OnSuccess position =>
          ret {| lat := latitude position;
                 lng := longitude position;
                 accuracy := Some (coordsAccuracy position);
                 source := network |}
      | OnError error => throw (formatGeolocationError error)
      | TimerFirst => throw (lit "Network location timeout after 5 seconds")
      end
  end.

(** [!x] for a number-or-undefined member: absent, or zero. *)
Definition falsyNumber (x : option Q) : bool :=
  match x with
  | Some q => Qeq_bool q 0
  | None => true
  end.

Definition decimal (z : Z) : str :=
  lit (NilZero.string_of_int (Z.to_int z)).

(** [getIPLocation]. *)
Definition getIPLocation (b : Browser) : Eff World LocationCoords :=
  tryCatch
    (logCall FetchIp ;;;
     match fetchIp b with
     | FetchRejected e => throw e
     | FetchResolved ok status body =>
         if negb ok then throw (lit "IP location API error: " ++ decimal status)
         else match body with
              | JsonRejected e => throw e
              | JsonData latitude longitude =>
                  if falsyNumber latitude || falsyNumber longitude then
                    throw (lit "Invalid IP location data")
                  else
                    match latitude, longitude with
                    | Some la, Some lo =>
                        ret {| lat := la; lng := lo; accuracy := None; source := ip |}
                    | _, _ => throw (lit "Invalid IP location data")
                    end
              end
     end)
    (fun error => throw (lit "IP location failed: " ++ error)).

(** [getFallbackLocation]. *)
Definition getFallbackLocation (b : Browser) : Eff World LocationCoords :=
  tryCatch
    (match timeZone b with
     | None => throw (lit "Intl")
     | Some timezone =>
         if includes timezone (lit "Jakarta") || includes timezone (lit "Asia/Jakarta")
         then ret jakarta
         else ret jakarta
     end)
    (fun error => ret jakarta).

(** [getCurrentLocation].  The cached value is returned through a
    non-null assertion; the branch where it would be null is written as a
    throw, and [resolve_total] shows that it is never taken. *)
Definition getCurrentLocation (b : Browser) : Eff World LocationCoords :=
  w <- get ;;
  if isCacheValid b w then
    match cachedLocation w with
    | Some location => ret location
    | None => throw (lit "cachedLocation is null")
    end
  else
    tryCatch
      (gpsLocation <- getGPSLocation b ;;
       updateCache b gpsLocation ;;;
       ret gpsLocation)
      (fun gpsError =>
         tryCatch
           (networkLocation <- getNetworkLocation b ;;
            updateCache b networkLocation ;;;
            ret networkLocation)
           (fun networkError =>
              tryCatch
                (ipLocation <- getIPLocation b ;;
                 updateCache b ipLocation ;;;
                 ret ipLocation)
                (fun ipError =>
                   fallbackLocation <- getFallbackLocation b ;;
                   ret fallbackLocation))).

(** ** Watching *)

Definition watchOptions : PositionOptions :=
  {| enableHighAccuracy := false; timeout := 10000; maximumAge := 60000 |}.

(** The success callback that [watchPosition] registers: the location it
    builds is cached and handed to the caller's [callback]. *)
Definition onWatchSuccess (b : Browser) (position : Position) : Eff World LocationCoords :=
  let location := {| lat := latitude position;
                     lng := longitude position;
                     accuracy := Some (coordsAccuracy position);
                     source := gps |} in
  updateCache b location ;;;
  ret location.

(** The error callback that [watchPosition] registers: what it hands to
    the caller's [errorCallback]. *)
Definition onWatchError (error : PositionError) : LocationError :=
  {| errCode := code error;
     errMessage := formatGeolocationError error;
     errSource := lit "geolocation" |}.

(** [watchPosition]: the error reported at once (if any) and the handle. *)
Definition watchPosition (b : Browser) : Eff World (option LocationError * option Z) :=
  match geolocation b with
  | None =>
      ret (Some {| errCode := -1;
                   errMessage := lit "Geolocation not supported";
                   errSource := lit "browser" |}, None)
  | Some _ =>
      logCall (WatchPosition watchOptions) ;;;
      ret (None, Some (watchId b))
  end.

(** ** Distance *)

Local Open Scope R_scope.

(** [Math.atan2 y x] on the reals. *)
Definition atan2 (y x : R) : R :=
  if Rlt_dec 0 x then atan (y / x)
  else if Rlt_dec x 0 then
         if Rle_dec 0 y then atan (y / x) + PI else atan (y / x) - PI
       else if Rlt_dec 0 y then PI / 2
            else if Rlt_dec y 0 then - (PI / 2) else 0.

(** [toRadians]. *)
Definition toRadians (degrees : R) : R := degrees * (PI / 180).

(** [getDistance] (haversine), in kilometres. *)
Definition getDistance (coord1 coord2 : LocationCoords) : R :=
  let R := 6371 in
  let dLat := toRadians (Q2R (lat coord2) - Q2R (lat coord1)) in
  let dLng := toRadians (Q2R (lng coord2) - Q2R (lng coord1)) in
  let a :=
    sin (dLat / 2) * sin (dLat / 2) +
    cos (toRadians (Q2R (lat coord1))) * cos (toRadians (Q2R (lat coord2))) *
    sin (dLng / 2) * sin (dLng / 2) in
  let c := 2 * atan2 (sqrt a) (sqrt (1 - a)) in
  R * c.

End Geo.

(* ===================================================================== *)
(** * The classifier as the specification words it *)
(* ===================================================================== *)

Module Spec.

Import Server.

(** The closed set of categories (without None, which is [option]'s). *)
Inductive Category : Type :=
| ATM | Restaurant | Pharmacy | GasStation | Hospital | Hotel.

(** The fixed priority order. *)
Definition priority : list Category :=
  [ATM; Restaurant; Pharmacy; GasStation; Hospital; Hotel].

Definition rank (c : Category) : nat :=
  match c with
  | ATM => 0 | Restaurant => 1 | Pharmacy => 2
  | GasStation => 3 | Hospital => 4 | Hotel => 5
  end.

(** The keyword / pattern test of each category. *)
Definition keywordTest (c : Category) (normalized : str) : bool :=
  match c with
  | ATM => includes normalized (lit "atm")
  | Restaurant => matchAltI restaurantWords normalized
  | Pharmacy => matchAltI pharmacyWords normalized
  | GasStation => matchAltI gasStationWords normalized
  | Hospital => matchAltI hospitalWords normalized
  | Hotel => matchAltI hotelWords normalized
  end.

(** The search type the server sends for each category. *)
Definition searchTypeOf (c : Category) : str :=
  match c with
  | ATM => lit "ATM"
  | Restaurant => lit "restaurants"
  | Pharmacy => lit "pharmacy"
  | GasStation => lit "gas station"
  | Hospital => lit "hospitals"
  | Hotel => lit "hotels"
  end.

(** The canned response sentence of each category. *)
Definition cannedReply (c : Category) : str :=
  match c with
  | ATM => lit "Saya akan carikan ATM untuk Anda."
  | Restaurant => lit "Saya akan carikan restoran untuk Anda."
  | Pharmacy => lit "Saya akan carikan apotek untuk Anda."
  | GasStation => lit "Saya akan carikan SPBU untuk Anda."
  | Hospital => lit "Saya akan carikan rumah sakit untuk Anda."
  | Hotel => lit "Saya akan carikan hotel untuk Anda."
  end.

(** Step 1 of the algorithm: trim, lower-case. *)
Definition normalize (userText : str) : str := trim (toLowerCase userText).

(** Step 2: ordered scan, first match wins. *)
Definition firstMatch (normalized : str) : option Category :=
  find (fun c => keywordTest c normalized) priority.

(** The oracle collaborator seen through its contract: an endpoint
    answers when it resolves with non-empty text. *)
Definition answered (r : HttpResult) : option str :=
  match r with
  | HttpOk (Some (c :: t)) => Some (c :: t)
  | _ => None
  end.

(** Primary endpoint, then secondary; [None] when both fail. *)
Definition oracleText (o : Oracle) (prompt : str) : option str :=
  match answered (openWebUI o prompt) with
  | Some t => Some t
  | None => answered (ollama o prompt)
  end.

(** The calls one oracle consultation makes. *)
Definition oracleCalls (o : Oracle) (prompt : str) : Log :=
  match answered (openWebUI o prompt) with
  | Some _ => [PostOpenWebUI prompt]
  | None => [PostOpenWebUI prompt; PostOllama prompt]
  end.

(** The sentence used when both endpoints fail. *)
Definition unavailable : str :=
  lit "LLM service unavailable. Please try again later.".

(** The category name read from an oracle text: what follows the first
    marker, up to the end of the line or a quote, trimmed. *)
Definition extractType (text : str) : option str :=
  match findFirst marker text with
  | Some (_, post) => Some (trim (takeWhile notNewlineOrQuote post))
  | None => None
  end.

(** The accuracy tag that the two one-shot tiers attach to a request:
    a high-accuracy request is tagged [gps], a low-power one [network]. *)
Definition tierOfRequest (o : Geo.PositionOptions) : Geo.Source :=
  if Geo.enableHighAccuracy o then Geo.gps else Geo.network.

(** Two worlds with the same cache: the singleton's two fields and the
    stored entry agree (the call log may differ). *)
Definition sameCache (w w' : Geo.World) : Prop :=
  Geo.cachedLocation w = Geo.cachedLocation w'
  /\ Geo.cacheTimestamp w = Geo.cacheTimestamp w'
  /\ Geo.localStorage w = Geo.localStorage w'.

(** A tier either returns a location carrying its tag or throws; it
    leaves the cache alone either way. *)
Definition tierSpec (tier : Eff Geo.World Geo.LocationCoords) (tag : Geo.Source) : Prop :=
  forall w, exists w',
    sameCache w w' /\
    ((exists loc, tier w = (Returned loc, w') /\ Geo.source loc = tag)
     \/ (exists e, tier w = (Thrown e, w'))).

(** How a run of [getCurrentLocation] ends: with the cached location,
    with a location acquired by one of the three tiers that can fail (and
    then cached), or with the static fallback after all three failed. *)
Inductive Resolution (b : Geo.Browser) (w : Geo.World)
          (loc : Geo.LocationCoords) (w' : Geo.World) : Prop :=
| FromCache :
    Geo.isCacheValid b w = true -> Geo.cachedLocation w = Some loc -> w' = w ->
    Resolution b w loc w'
| FromTier :
    Geo.isCacheValid b w = false ->
    (exists w0 w1,
        Geo.getGPSLocation b w0 = (Returned loc, w1)
        \/ Geo.getNetworkLocation b w0 = (Returned loc, w1)
        \/ Geo.getIPLocation b w0 = (Returned loc, w1)) ->
    Geo.source loc <> Geo.fallback ->
    Geo.cachedLocation w' = Some loc ->
    Geo.cacheTimestamp w' = Geo.nowAtUpdate b ->
    Geo.localStorage w' = (if Geo.storageThrows b then Geo.localStorage w
                           else Some (loc, Geo.nowAtUpdate b)) ->
    Resolution b w loc w'
| FromFallback :
    Geo.isCacheValid b w = false ->
    (forall w0, exists e w1, Geo.getGPSLocation b w0 = (Thrown e, w1)) ->
    (forall w0, exists e w1, Geo.getNetworkLocation b w0 = (Thrown e, w1)) ->
    (forall w0, exists e w1, Geo.getIPLocation b w0 = (Thrown e, w1)) ->
    loc = Geo.jakarta -> sameCache w w' ->
    Resolution b w loc w'.

End Spec.

(* ===================================================================== *)
(** * Sample environments *)
(* ===================================================================== *)

Module Samples.

Import Server Geo.
Local Open Scope Z_scope.
Local Open Scope list_scope.


(** An oracle whose primary endpoint answers with the given text. *)
Definition saying (text : str) : Oracle :=
  {| openWebUI := fun _ => HttpOk (Some text);
     ollama := fun _ => HttpError (lit "ECONNREFUSED") |}.

(** An oracle with the primary endpoint timing out and the secondary one
    answering without the [response] member. *)
Definition silent : Oracle :=
  {| openWebUI := fun _ => HttpError (lit "timeout of 15000ms exceeded");
     ollama := fun _ => HttpOk None |}.


(** Permission denied, no network: every tier that can fail does. *)
Definition denied : Browser :=
  {| geolocation := Some (fun _ => OnError {| code := 1; message := [] |});
     watchId := 7;
     fetchIp := FetchRejected (lit "Failed to fetch");
     timeZone := Some (lit "Europe/Paris");
     nowAtCheck := 1000;
     nowAtUpdate := 1200;
     storageThrows := false |}.

(** A browser whose precise positioning answers. *)
Definition outdoors : Browser :=
  {| geolocation := Some (fun _ =>
       OnSuccess {| latitude := -7.2575; longitude := 112.7521; coordsAccuracy := 12 |});
     watchId := 7;
     fetchIp := FetchRejected (lit "Failed to fetch");
     timeZone := Some (lit "Asia/Jakarta");
     nowAtCheck := 1000;
     nowAtUpdate := 1200;
     storageThrows := false |}.

(** The same browser one minute later. *)
Definition later : Browser :=
  {| geolocation := geolocation denied;
     watchId := 7;
     fetchIp := FetchRejected (lit "Failed to fetch");
     timeZone := Some (lit "Asia/Jakarta");
     nowAtCheck := 61000;
     nowAtUpdate := 61200;
     storageThrows := false |}.

Definition equator0 : LocationCoords :=
  {| lat := 0; lng := 106.8456; accuracy := None; source := fallback |}.
Definition equator1 : LocationCoords :=
  {| lat := 1; lng := 106.8456; accuracy := None; source := fallback |}.

End Samples.

(* ===================================================================== *)
(** * Backend: the first version of the server *)
(* ===================================================================== *)

(** The repository also carries the server as it was before logging,
    validation and input sanitising were added.  Its keyword cascade,
    its two regular expressions and its prompt are the same text as in
    the later version, so [Server.ruleChain], [Server.matchMarker],
    [Server.replaceMarker] and [Server.promptFor] are used for both. *)

Module Legacy.

Import Server.
Local Open Scope eff_scope.
Local Open Scope list_scope.

(** The primary endpoint: the post rejects; or it resolves and reading
    [data.choices[0].message.content] throws a TypeError because a link of
    that chain is missing; or the chain is there and [content] is
    undefined or a string. *)
Inductive Primary : Type :=
| PError (message : str)
| PNoMessage
| PContent (content : option str).

Record Oracle : Type := {
  openWebUI : str -> Primary;
  ollama : str -> HttpResult      (* [data.response], undefined or a string *)
}.

(** [queryLLM]: no sanitising and no check of what is returned, so the
    result is a string or undefined. *)
Definition queryLLM (o : Oracle) (prompt : str) : Eff Log (option str) :=
  tryCatch
    (fun log =>
       match openWebUI o prompt with
       | PError e => (Thrown e, log ++ [PostOpenWebUI prompt])
       | PNoMessage => (Thrown (lit "TypeError"), log ++ [PostOpenWebUI prompt])
       | PContent c => (Returned c, log ++ [PostOpenWebUI prompt])
       end)
    (fun openWebUIError =>
       tryCatch
         (post (PostOllama prompt) (ollama o prompt))
         (fun ollamaError => ret (Some (lit "LLM service unavailable")))).

Inductive Response : Type :=
| Json200 (body : Reply)
| Json400 (error : str)
| Json500 (error : str).

(** The inner [try] of the oracle branch: calling [includes] on an
    undefined [llmResponse] throws, which the inner [catch] absorbs. *)
Definition askOracle (o : Oracle) (message : str) (searchType : option str)
  : Eff Log (str * option str) :=
  tryCatch
    (r <- queryLLM o (promptFor message) ;;
     match r with
     | None => throw (lit "TypeError")
     | Some llmResponse =>
         if includes llmResponse marker then
           match matchMarker llmResponse with
           | Some m1 => ret (llmResponse, Some (trim m1))
           | None => ret (llmResponse, searchType)
           end
         else ret (llmResponse, searchType)
     end)
    (fun error => ret (lit "Maaf, silakan coba lagi.", searchType)).

(** The handler, for a [message] member that is a string (an absent
    member behaves as the empty string does). *)
Definition ask (o : Oracle) (message : str) : Eff Log Response :=
  tryCatch
    (if negb (truthy (Some message)) then
       ret (Json400 (lit "Message is required"))
     else
       let normalizedMessage := trim (toLowerCase message) in
       let '(searchType0, responseText) := ruleChain normalizedMessage in
       r <- (if negb (truthy searchType0) then askOracle o message searchType0
             else ret (responseText ++ lit " LOCATION_SEARCH:"
                         ++ match searchType0 with Some t => t | None => [] end,
                       searchType0)) ;;
       let '(llmResponse, searchType) := r in
       let mapData := if truthy searchType then searchType else None in
       let cleanResponse := trim (replaceMarker llmResponse) in
       ret (Json200 {| reply := cleanResponse;
                       userMessage := message;
                       mapData := mapData |}))
    (fun error => ret (Json500 (lit "Terjadi kesalahan server"))).

Definition handle (o : Oracle) (message : str) : Outcome Response * Log :=
  ask o message [].

End Legacy.

(* ===================================================================== *)
(** * Vocabulary for the further properties *)
(* ===================================================================== *)

Module Text.

Local Open Scope list_scope.

(** Neither the first nor the last code unit is white space. *)
Definition trimmed (s : str) : Prop :=
  (forall c r, s = c :: r -> isSpace c = false)
  /\ (forall c r, s = r ++ [c] -> isSpace c = false).

(** A string of [n] copies of one code unit. *)
Definition copies (n : nat) (c : ascii) : str := repeat c n.

End Text.

(* ===================================================================== *)
(** * Frontend: the search box of [App] *)
(* ===================================================================== *)

Module App.

Local Open Scope eff_scope.
Local Open Scope list_scope.
Local Open Scope Z_scope.

(** [MapData] (its optional [recommendations] member is not read by the
    code modelled here) and [ApiResponse]. *)
Record MapData : Type := {
  searchQuery : str;
  mapUrl : str;
  embedUrl : str
}.

Record ApiResponse : Type := {
  reply : str;
  userMessage : str;
  mapData : option MapData;
  timestamp : str
}.

(** The component's state ([useState]) and its counter ([useRef]). *)
Record AppState : Type := {
  query : str;
  loading : bool;
  responses : list ApiResponse;
  pendingMaps : list (str * str);      (* searchQuery, mapId *)
  mapCounter : Z
}.

(** What the component does to the outside: a POST of a message to
    [/api/ask], a pause. *)
Inductive Event : Type :=
| PostAsk (message : str)
| Sleep (ms : Z).

Record View : Type := {
  state : AppState;
  events : list Event
}.

(** One [fetch] of [/api/ask]: rejected, or resolved with [ok], [status]
    and a body ([None] when [response.json()] rejects). *)
Inductive AskFetch : Type :=
| AskRejected (message : str)
| AskResolved (ok : bool) (status : Z) (body : option ApiResponse).

Record Net : Type := {
  askFetch : nat -> AskFetch;     (* outcome of the k-th attempt of a search *)
  now : Z;                        (* Date.now() *)
  nowIso : str                    (* new Date().toISOString() *)
}.

Definition setState (f : AppState -> AppState) : Eff View unit :=
  modify (fun v => {| state := f (state v); events := events v |}).

Definition emit (e : Event) : Eff View unit :=
  modify (fun v => {| state := state v; events := events v ++ [e] |}).

Definition setQuery (q : str) : Eff View unit :=
  setState (fun s => {| query := q; loading := loading s; responses := responses s;
                        pendingMaps := pendingMaps s; mapCounter := mapCounter s |}).

Definition setLoading (b : bool) : Eff View unit :=
  setState (fun s => {| query := query s; loading := b; responses := responses s;
                        pendingMaps := pendingMaps s; mapCounter := mapCounter s |}).

(** [setResponses(prev => [...prev, r])]. *)
Definition pushResponse (r : ApiResponse) : Eff View unit :=
  setState (fun s => {| query := query s; loading := loading s;
                        responses := responses s ++ [r];
                        pendingMaps := pendingMaps s; mapCounter := mapCounter s |}).

(** [mapCounter.current++] and the queueing of the map. *)
Definition queueMap (n : Net) (q : str) : Eff View unit :=
  setState (fun s =>
    let counter := mapCounter s + 1 in
    let mapId := lit "map-" ++ Geo.decimal counter ++ lit "-" ++ Geo.decimal (now n) in
    {| query := query s; loading := loading s; responses := responses s;
       pendingMaps := pendingMaps s ++ [(q, mapId)]; mapCounter := counter |}).

(** The first three code units are the UTF-8 bytes of the cross mark
    that opens the sentence. *)
Definition errorReply : str :=
  [ascii_of_N 226; ascii_of_N 157; ascii_of_N 140]
  ++ lit " Maaf, terjadi kesalahan. Pastikan server backend berjalan di port 3000.".

Definition doFetch (n : Net) (q : str) (attempt : nat)
  : Eff View (bool * Z * option ApiResponse) :=
  emit (PostAsk q) ;;;
  match askFetch n attempt with
  | AskRejected e => throw e
  | AskResolved ok status body => ret (ok, status, body)
  end.

(** The [while (retries > 0)] loop: [None] stands for a [response] left
    undefined. *)
Fixpoint fetchLoop (n : Net) (q : str) (retries attempt : nat)
  : Eff View (option (bool * Z * option ApiResponse)) :=
  match retries with
  | O => ret None
  | S r =>
      tryCatch
        (response <- doFetch n q attempt ;; ret (Some response))
        (fun fetchError =>
           if (r =? 0)%nat then throw fetchError
           else emit (Sleep 1000) ;;; fetchLoop n q r (S attempt))
  end.

(** [try { body } finally { fin }]. *)
Definition tryFinally {A} (body : Eff View A) (fin : Eff View unit) : Eff View A :=
  fun v =>
    match body v with
    | (r, v') => (r, snd (fin v'))
    end.

(** [handleSearch], as created by a render in which the state variable
    [query] has the value [q]. *)
Definition handleSearch (n : Net) (q : str) : Eff View unit :=
  if negb (truthy (Some (trim q))) then ret tt
  else
    setLoading true ;;;
    tryFinally
      (tryCatch
         (response <- fetchLoop n q 3 0 ;;
          match response with
          | None => throw (lit "Server error: Network failed")
          | Some (ok, status, body) =>
              if negb ok then
                throw (lit "Server error: "
                         ++ (if status =? 0 then lit "Network failed"
                             else Geo.decimal status))
              else
                match body with
                | None => throw (lit "SyntaxError")
                | Some data =>
                    pushResponse data ;;;
                    (match mapData data with
                     | Some m =>
                         if truthy (Some (searchQuery m))
                         then queueMap n (searchQuery m)
                         else ret tt
                     | None => ret tt
                     end) ;;;
                    setQuery []
                end
          end)
         (fun error =>
            pushResponse {| reply := errorReply;
                            userMessage := q;
                            mapData := None;
                            timestamp := nowIso n |}))
      (setLoading false).

(** [quickSearch], as created by the same render: it sets the state and
    then, from a zero-delay timer, calls the [handleSearch] of its own
    render, whose [query] is still [q]. *)
Definition quickSearch (n : Net) (q : str) (searchQuery : str) : Eff View unit :=
  setQuery searchQuery ;;;
  handleSearch n q.

(** The five quick suggestions. *)
Definition suggestions : list str :=
  map lit ["restoran terdekat"; "ATM terdekat"; "rumah sakit terdekat";
           "apotek 24 jam"; "SPBU terdekat"]%string.

(** The events of a search that needed [k] attempts. *)
Fixpoint attempts (q : str) (k : nat) : list Event :=
  match k with
  | O => []
  | S O => [PostAsk q]
  | S k' => PostAsk q :: Sleep 1000 :: attempts q k'
  end.

(** The number of attempts a search makes: one more than the number of
    rejected attempts before the first that resolves, three at most. *)
Definition attemptCount (n : Net) : nat :=
  match askFetch n 0%nat with
  | AskResolved _ _ _ => 1
  | AskRejected _ =>
      match askFetch n 1%nat with
      | AskResolved _ _ _ => 2
      | AskRejected _ => 3
      end
  end.

(** The first attempt that is not rejected, among the three. *)
Definition firstResolved (n : Net) : option (bool * Z * option ApiResponse) :=
  match askFetch n 0%nat with
  | AskResolved ok status body => Some (ok, status, body)
  | AskRejected _ =>
      match askFetch n 1%nat with
      | AskResolved ok status body => Some (ok, status, body)
      | AskRejected _ =>
          match askFetch n 2%nat with
          | AskResolved ok status body => Some (ok, status, body)
          | AskRejected _ => None
          end
      end
  end.

(** The data a search obtains: the body of the first attempt that
    resolves, when its status is ok and its body parses. *)
Definition answer (n : Net) : option ApiResponse :=
  match firstResolved n with
  | Some (true, _, Some data) => Some data
  | _ => None
  end.

(** The card shown when a search fails. *)
Definition errorCard (n : Net) (q : str) : ApiResponse :=
  {| reply := errorReply; userMessage := q; mapData := None; timestamp := nowIso n |}.

(** The search query of a response that carries a map. *)
Definition mapQuery (r : ApiResponse) : option str :=
  match mapData r with
  | Some m => if truthy (Some (searchQuery m)) then Some (searchQuery m) else None
  | None => None
  end.

End App.

(* ===================================================================== *)
(** * Sessions and views of the models *)
(* ===================================================================== *)

Module Session.

Import Server.
Local Open Scope list_scope.
Local Open Scope Z_scope.

(** A page reload: a new singleton with its initial fields, the same
    [localStorage]. *)
Definition reload (w : Geo.World) : Geo.World :=
  {| Geo.cachedLocation := None;
     Geo.cacheTimestamp := 0;
     Geo.localStorage := Geo.localStorage w;
     Geo.calls := Geo.calls w |}.

(** What the first server's [queryLLM] returns for a prompt. *)
Definition legacyText (o : Legacy.Oracle) (prompt : str) : option str :=
  match Legacy.openWebUI o prompt with
  | Legacy.PContent c => c
  | _ =>
      match Legacy.ollama o prompt with
      | HttpError _ => Some (lit "LLM service unavailable")
      | HttpOk f => f
      end
  end.

(** The calls it makes. *)
Definition legacyCalls (o : Legacy.Oracle) (prompt : str) : Log :=
  match Legacy.openWebUI o prompt with
  | Legacy.PContent _ => [PostOpenWebUI prompt]
  | _ => [PostOpenWebUI prompt; PostOllama prompt]
  end.

(** The three source calls of the resolver. *)
Definition callGps : Geo.SourceCall := Geo.GetCurrentPosition Geo.gpsOptions.
Definition callNetwork : Geo.SourceCall := Geo.GetCurrentPosition Geo.networkOptions.

Definition succeeds (r : Geo.GeoReply) : bool :=
  match r with Geo.OnSuccess _ => true | _ => false end.

End Session.

(* ===================================================================== *)
(** * Further sample environments *)
(* ===================================================================== *)

Module MoreSamples.

Import Server.
Local Open Scope list_scope.
Local Open Scope Z_scope.

(** The first server with a primary endpoint that answers without
    [content] . *)
Definition hollow : Legacy.Oracle :=
  {| Legacy.openWebUI := fun _ => Legacy.PContent None;
     Legacy.ollama := fun _ => HttpError (lit "ECONNREFUSED") |}.

(** Fifteen minutes after [Samples.outdoors]. *)
Definition quarterLater : Geo.Browser :=
  {| Geo.geolocation := Geo.geolocation Samples.denied;
     Geo.watchId := 7;
     Geo.fetchIp := Geo.FetchRejected (lit "Failed to fetch");
     Geo.timeZone := Some (lit "Asia/Jakarta");
     Geo.nowAtCheck := 901200;
     Geo.nowAtUpdate := 901300;
     Geo.storageThrows := false |}.

(** An address on the Greenwich meridian. *)
Definition greenwich : Geo.Browser :=
  {| Geo.geolocation := None;
     Geo.watchId := 7;
     Geo.fetchIp := Geo.FetchResolved true 200 (Geo.JsonData (Some 51.4779%Q) (Some 0%Q));
     Geo.timeZone := Some (lit "Europe/London");
     Geo.nowAtCheck := 1000;
     Geo.nowAtUpdate := 1200;
     Geo.storageThrows := false |}.

Definition pole : Geo.LocationCoords :=
  {| Geo.lat := 90; Geo.lng := 106.8456; Geo.accuracy := None; Geo.source := Geo.fallback |}.

Definition equatorEast : Geo.LocationCoords :=
  {| Geo.lat := 0; Geo.lng := 116.8456; Geo.accuracy := None; Geo.source := Geo.fallback |}.

(** A server that cannot be reached, and one that answers on the third
    attempt. *)
Definition offline : App.Net :=
  {| App.askFetch := fun _ => App.AskRejected (lit "Failed to fetch");
     App.now := 1700000000000;
     App.nowIso := lit "2023-11-14T22:13:20.000Z" |}.

Definition atmAnswer : App.ApiResponse :=
  {| App.reply := lit "Saya akan carikan ATM untuk Anda.";
     App.userMessage := lit "ATM terdekat";
     App.mapData := Some {| App.searchQuery := lit "ATM";
                            App.mapUrl := lit "https://www.google.com/maps/search/ATM";
                            App.embedUrl := [] |};
     App.timestamp := lit "2023-11-14T22:13:20.000Z" |}.

Definition flaky : App.Net :=
  {| App.askFetch := fun k => match k with
                              | 2%nat => App.AskResolved true 200 (Some atmAnswer)
                              | _ => App.AskRejected (lit "Failed to fetch")
                              end;
     App.now := 1700000000000;
     App.nowIso := lit "2023-11-14T22:13:20.000Z" |}.

Definition blank : App.View :=
  {| App.state := {| App.query := []; App.loading := false; App.responses := [];
                     App.pendingMaps := []; App.mapCounter := 0 |};
     App.events := [] |}.

End MoreSamples.

(* ===================================================================== *)
(** * Backend: oracle answers of any JSON type *)
(* ===================================================================== *)

(** [Server] and [Legacy] take the field read from an oracle answer to be
    absent or a string.  The code itself only tests that field for
    truthiness, so here it is any JSON value, and the three string
    methods the handler calls on it ([includes], [match], [replace])
    behave as JavaScript makes them behave on each type.  The two handler
    bodies are the same text from the normalising of the message to the
    sending of the body; that part is [respond], used for both versions
    of the server. *)

Module Wire.

Import Server.
Local Open Scope eff_scope.
Local Open Scope list_scope.

#[local] Set Warnings "-register-all".

Inductive Json : Type :=
| JNull
| JBool (b : bool)
| JNum (q : Q)
| JStr (s : str)
| JArr (items : list Json)
| JObj (members : list (str * Json)).

(** A value read from a parsed body: [None] is undefined. *)
Definition Value : Type := option Json.

(** JavaScript truthiness. *)
Definition truthyValue (v : Value) : bool :=
  match v with
  | None => false
  | Some JNull => false
  | Some (JBool b) => b
  | Some (JNum q) => negb (Qeq_bool q 0)
  | Some (JStr s) => truthy (Some s)
  | Some (JArr _) => true
  | Some (JObj _) => true
  end.

(** An [axios.post]: rejected, or resolved with the field the code reads
    from the body. *)
Inductive Answer : Type :=
| Rejected (message : str)
| Resolved (field : Value).

Record Oracle : Type := {
  openWebUI : str -> Answer;
  ollama : str -> Answer
}.

Definition post (c : Call) (r : Answer) : Eff Log Value :=
  fun log =>
    match r with
    | Rejected e => (Thrown e, log ++ [c])
    | Resolved f => (Returned f, log ++ [c])
    end.

(** [queryLLM] of the second server. *)
Definition queryLLM (o : Oracle) (prompt : str) : Eff Log Value :=
  let sanitizedPrompt := sanitizeInput prompt in
  if negb (truthy (Some sanitizedPrompt)) then
    ret (Some (JStr (lit "Invalid input provided")))
  else
    tryCatch
      (content <- post (PostOpenWebUI sanitizedPrompt) (openWebUI o sanitizedPrompt) ;;
       if truthyValue content then ret content
       else throw (lit "Invalid response format from Open WebUI"))
      (fun openWebUIError =>
         tryCatch
           (response <- post (PostOllama sanitizedPrompt) (ollama o sanitizedPrompt) ;;
            if truthyValue response then ret response
            else throw (lit "Invalid response format from Ollama"))
           (fun ollamaError =>
              ret (Some (JStr (lit "LLM service unavailable. Please try again later."))))).

(** Whether an array has the string [needle] among its elements (what
    [Array.prototype.includes] answers for a string argument). *)
Definition hasElement (needle : str) (items : list Json) : bool :=
  existsb (fun j => match j with JStr s => str_eqb s needle | _ => false end) items.

(** [v.includes(needle)]: strings and arrays have the method; on any
    other value the call throws a TypeError. *)
Definition callIncludes (v : Value) (needle : str) : Eff Log bool :=
  match v with
  | Some (JStr s) => ret (includes s needle)
  | Some (JArr items) => ret (hasElement needle items)
  | _ => throw (lit "TypeError")
  end.

(** [v.match(re)] for the marker regex: only strings have the method. *)
Definition callMatch (v : Value) : Eff Log (option str) :=
  match v with
  | Some (JStr s) => ret (matchMarker s)
  | _ => throw (lit "TypeError")
  end.

(** [v.replace(re, '')] for the stripping regex: only strings have the
    method. *)
Definition callReplace (v : Value) : Eff Log str :=
  match v with
  | Some (JStr s) => ret (replaceMarker s)
  | _ => throw (lit "TypeError")
  end.

(** The inner [try] and its [catch], for the oracle query of either
    server. *)
Definition askOracle (query : Eff Log Value) (searchType : option str)
  : Eff Log (Value * option str) :=
  tryCatch
    (llmResponse <- query ;;
     found <- callIncludes llmResponse marker ;;
     if found then
       m <- callMatch llmResponse ;;
       match m with
       | Some m1 => ret (llmResponse, Some (trim m1))
       | None => ret (llmResponse, searchType)
       end
     else ret (llmResponse, searchType))
    (fun error => ret (Some (JStr (lit "Maaf, silakan coba lagi.")), searchType)).

(** From [normalizedMessage] to the body handed to [res.json]; an
    exception that leaves it goes to the handler's outer [catch]. *)
Definition respond (message : str) (query : Eff Log Value) : Eff Log Reply :=
  let normalizedMessage := trim (toLowerCase message) in
  let '(searchType0, responseText) := ruleChain normalizedMessage in
  r <- (if negb (truthy searchType0) then askOracle query searchType0
        else ret (Some (JStr (responseText ++ lit " LOCATION_SEARCH:"
                                ++ match searchType0 with Some t => t | None => [] end)),
                  searchType0)) ;;
  let '(llmResponse, searchType) := r in
  let mapData := if truthy searchType then searchType else None in
  replaced <- callReplace llmResponse ;;
  let cleanResponse := trim replaced in
  ret {| reply := cleanResponse; userMessage := message; mapData := mapData |}.

(** The handler of the second server, after validation. *)
Definition ask (o : Oracle) (message : str) : Eff Log Response :=
  tryCatch
    (body <- respond message (queryLLM o (promptFor message)) ;;
     ret (Json200 body))
    (fun error => ret (Json500 (lit "Internal server error. Please try again later."))).

Definition handle (o : Oracle) (message : str) : Outcome Response * Log :=
  ask o message [].

(** An oracle of [Server] seen as one whose fields are strings. *)
Definition embedAnswer (r : HttpResult) : Answer :=
  match r with
  | HttpError e => Rejected e
  | HttpOk (Some s) => Resolved (Some (JStr s))
  | HttpOk None => Resolved None
  end.

Definition embed (o : Server.Oracle) : Oracle :=
  {| openWebUI := fun p => embedAnswer (Server.openWebUI o p);
     ollama := fun p => embedAnswer (Server.ollama o p) |}.

(** An endpoint answers when it resolves with a truthy field. *)
Definition answered (a : Answer) : Value :=
  match a with
  | Resolved f => if truthyValue f then f else None
  | Rejected _ => None
  end.

(** What [queryLLM] returns for a non-blank prompt, and the calls it
    makes. *)
Definition oracleValue (o : Oracle) (prompt : str) : Value :=
  match answered (openWebUI o prompt) with
  | Some j => Some j
  | None =>
      match answered (ollama o prompt) with
      | Some j => Some j
      | None => Some (JStr (lit "LLM service unavailable. Please try again later."))
      end
  end.

Definition oracleCalls (o : Oracle) (prompt : str) : Log :=
  match answered (openWebUI o prompt) with
  | Some _ => [PostOpenWebUI prompt]
  | None => [PostOpenWebUI prompt; PostOllama prompt]
  end.

Definition apology (message : str) : Reply :=
  {| reply := lit "Maaf, silakan coba lagi."; userMessage := message; mapData := None |}.

(** The body sent for a message on which no rule fires, by the type of
    the value the oracle query returned; [None] when the handler's outer
    [catch] is reached instead. *)
Definition bodyFor (message : str) (v : Value) : option Reply :=
  match v with
  | Some (JStr t) =>
      Some {| reply := trim (replaceMarker t);
              userMessage := message;
              mapData := if truthy (Spec.extractType t)
                         then Spec.extractType t else None |}
  | Some (JArr items) =>
      if hasElement marker items then Some (apology message) else None
  | _ => Some (apology message)
  end.

(** A value that is not a string and has no [includes] method. *)
Definition plain (v : Value) : bool :=
  match v with
  | Some (JStr _) => false
  | Some (JArr _) => false
  | _ => true
  end.

End Wire.

Module LegacyWire.

Import Server.
Local Open Scope eff_scope.
Local Open Scope list_scope.

(** The primary endpoint of the first server: rejected; resolved with a
    body in which the chain down to [message] is broken (a TypeError);
    resolved with [content] being any value. *)
Inductive Primary : Type :=
| PError (message : str)
| PNoMessage
| PContent (content : Wire.Value).

Record Oracle : Type := {
  openWebUI : str -> Primary;
  ollama : str -> Wire.Answer
}.

(** [queryLLM] of the first server: what is read is returned as it is. *)
Definition queryLLM (o : Oracle) (prompt : str) : Eff Log Wire.Value :=
  tryCatch
    (fun log =>
       match openWebUI o prompt with
       | PError e => (Thrown e, log ++ [PostOpenWebUI prompt])
       | PNoMessage => (Thrown (lit "TypeError"), log ++ [PostOpenWebUI prompt])
       | PContent c => (Returned c, log ++ [PostOpenWebUI prompt])
       end)
    (fun openWebUIError =>
       tryCatch
         (Wire.post (PostOllama prompt) (ollama o prompt))
         (fun ollamaError => ret (Some (Wire.JStr (lit "LLM service unavailable"))))).

(** The handler of the first server, for a [message] member that is a
    string. *)
Definition ask (o : Oracle) (message : str) : Eff Log Legacy.Response :=
  tryCatch
    (if negb (truthy (Some message)) then
       ret (Legacy.Json400 (lit "Message is required"))
     else
       body <- Wire.respond message (queryLLM o (promptFor message)) ;;
       ret (Legacy.Json200 body))
    (fun error => ret (Legacy.Json500 (lit "Terjadi kesalahan server"))).

Definition handle (o : Oracle) (message : str) : Outcome Legacy.Response * Log :=
  ask o message [].

(** What its [queryLLM] returns, and the calls it makes. *)
Definition oracleValue (o : Oracle) (prompt : str) : Wire.Value :=
  match openWebUI o prompt with
  | PContent c => c
  | _ =>
      match ollama o prompt with
      | Wire.Rejected _ => Some (Wire.JStr (lit "LLM service unavailable"))
      | Wire.Resolved f => f
      end
  end.

Definition oracleCalls (o : Oracle) (prompt : str) : Log :=
  match openWebUI o prompt with
  | PContent _ => [PostOpenWebUI prompt]
  | _ => [PostOpenWebUI prompt; PostOllama prompt]
  end.

End LegacyWire.

(* ===================================================================== *)
(** * Backend: the validation in front of the second handler *)
(* ===================================================================== *)

Module Request.

Import Server.
Local Open Scope list_scope.

(** [userLocation] of the request body, with numeric members. *)
Record UserLocation : Type := {
  lat : option Q;
  lng : option Q
}.

(** The body of a request whose [message] member is a string. *)
Record Body : Type := {
  message : str;
  userLocation : option UserLocation
}.

(** The [escape] sanitiser: the eight characters it replaces. *)
Definition escapeChar (c : ascii) : str :=
  let n := code c in
  if (n =? 38)%N then lit "&amp;"
  else if (n =? 34)%N then lit "&quot;"
  else if (n =? 39)%N then lit "&#x27;"
  else if (n =? 60)%N then lit "&lt;"
  else if (n =? 62)%N then lit "&gt;"
  else if (n =? 47)%N then lit "&#x2F;"
  else if (n =? 92)%N then lit "&#x5C;"
  else if (n =? 96)%N then lit "&#96;"
  else [c].

Definition escape (s : str) : str := flat_map escapeChar s.

Definition inRange (x : option Q) (lo hi : Q) : bool :=
  match x with
  | Some q => Qle_bool lo q && Qle_bool q hi
  | None => true
  end.

(** The optional checks on [userLocation.lat] and [userLocation.lng]. *)
Definition locationValid (l : option UserLocation) : bool :=
  match l with
  | Some u => inRange (lat u) (-90) 90 && inRange (lng u) (-180) 180
  | None => true
  end.

(** [validateAskRequest]: the chain on [message] trims, checks the
    length of what is left, and escapes; the message the handler then
    reads, or [None] when there are validation errors. *)
Definition validateAskRequest (b : Body) : option str :=
  let trimmedMessage := trim (message b) in
  if (1 <=? List.length trimmedMessage)%nat
     && (List.length trimmedMessage <=? 500)%nat
     && locationValid (userLocation b)
  then Some (escape trimmedMessage)
  else None.

Inductive Sent : Type :=
| Invalid400
| Handled (r : Response).

(** One request to the second server. *)
Definition serve (o : Wire.Oracle) (b : Body) : Outcome Sent * Log :=
  match validateAskRequest b with
  | None => (Returned Invalid400, [])
  | Some m =>
      match Wire.handle o m with
      | (Returned r, log) => (Returned (Handled r), log)
      | (Thrown e, log) => (Thrown e, log)
      end
  end.

End Request.

Module WireSamples.

Import Server.
Local Open Scope list_scope.

(** Content as a list of parts. *)
Definition parts : Wire.Json :=
  Wire.JArr [Wire.JObj [(lit "type", Wire.JStr (lit "text"));
                        (lit "text", Wire.JStr (lit "Halo"))]].

Definition partsOracle : Wire.Oracle :=
  {| Wire.openWebUI := fun _ => Wire.Resolved (Some parts);
     Wire.ollama := fun _ => Wire.Rejected (lit "ECONNREFUSED") |}.

Definition downOracle : Wire.Oracle :=
  {| Wire.openWebUI := fun _ => Wire.Rejected (lit "timeout of 15000ms exceeded");
     Wire.ollama := fun _ => Wire.Resolved None |}.

Definition legacyDown : LegacyWire.Oracle :=
  {| LegacyWire.openWebUI := fun _ => LegacyWire.PNoMessage;
     LegacyWire.ollama := fun _ => Wire.Rejected (lit "ECONNREFUSED") |}.

Definition atmRequest : Request.Body :=
  {| Request.message := lit "dimana ATM terdekat";
     Request.userLocation := Some {| Request.lat := Some (-6.2088)%Q;
                                     Request.lng := Some 106.8456%Q |} |}.

End WireSamples.

(* ===================================================================== *)
(** * Strings: lemmas *)
(* ===================================================================== *)

Section StringFacts.

Local Open Scope nat_scope.
Local Open Scope list_scope.

Lemma startsWith_app (p r : str) : startsWith p (p ++ r) = true.
Proof.
  induction p as [|x p IH]; simpl; [reflexivity|].
  now rewrite Ascii.eqb_refl, IH.
Qed.

Lemma startsWith_split (p s : str) :
  startsWith p s = true -> s = p ++ skipn (List.length p) s.
Proof.
  revert s; induction p as [|x p IH]; intros [|y s]; simpl; try easy.
  intros H; apply andb_true_iff in H as [Hxy Hp].
  apply Ascii.eqb_eq in Hxy; subst y.
  now rewrite <- IH.
Qed.

Lemma findFirst_nil (p : str) :
  findFirst p [] = if startsWith p [] then Some ([], skipn (List.length p) []) else None.
Proof. reflexivity. Qed.

Lemma findFirst_cons (p : str) (c : ascii) (s : str) :
  findFirst p (c :: s) =
  if startsWith p (c :: s) then Some ([], skipn (List.length p) (c :: s))
  else match findFirst p s with
       | Some (pre, post) => Some (c :: pre, post)
       | None => None
       end.
Proof. reflexivity. Qed.

(** The occurrence found is an occurrence. *)
Lemma findFirst_sound (p s pre post : str) :
  findFirst p s = Some (pre, post) -> s = pre ++ p ++ post.
Proof.
  revert pre post; induction s as [|c s IH]; intros pre post.
  - rewrite findFirst_nil. destruct (startsWith p []) eqn:E; [|discriminate].
    intros [= <- <-]. now apply startsWith_split.
  - rewrite findFirst_cons. destruct (startsWith p (c :: s)) eqn:E.
    + intros [= <- <-]. now apply startsWith_split.
    + destruct (findFirst p s) as [[a b]|]; [|discriminate].
      intros [= <- <-]. simpl. f_equal. now apply IH.
Qed.

(** Every occurrence is found, and none starts before the one found. *)
Lemma findFirst_least (p a b : str) :
  exists pre post,
    findFirst p (a ++ p ++ b) = Some (pre, post) /\ List.length pre <= List.length a.
Proof.
  induction a as [|c a IH].
  - simpl app. exists [], (skipn (List.length p) (p ++ b)).
    split; [|simpl; lia].
    destruct (p ++ b) eqn:E.
    + rewrite findFirst_nil, <- E, startsWith_app, E. reflexivity.
    + rewrite findFirst_cons, <- E, startsWith_app, E. reflexivity.
  - destruct IH as (pre & post & Hf & Hl).
    change ((c :: a) ++ p ++ b) with (c :: (a ++ p ++ b)).
    rewrite findFirst_cons.
    destruct (startsWith p (c :: a ++ p ++ b)).
    + eexists _, _. split; [reflexivity|simpl; lia].
    + rewrite Hf. eexists _, _. split; [reflexivity|simpl; lia].
Qed.

Lemma includes_iff (s p : str) :
  includes s p = true <-> exists a b, s = a ++ p ++ b.
Proof.
  unfold includes. split.
  - destruct (findFirst p s) as [[a b]|] eqn:E; [|discriminate].
    intros _. exists a, b. now apply findFirst_sound.
  - intros (a & b & ->).
    destruct (findFirst_least p a b) as (pre & post & -> & _). reflexivity.
Qed.


Lemma toLowerCase_app (a b : str) :
  toLowerCase (a ++ b) = toLowerCase a ++ toLowerCase b.
Proof. apply map_app. Qed.

(** [trimStart] stops at the first code unit that is not white space. *)
Lemma trimStart_app (a : str) (x : ascii) (r : str) :
  isSpace x = false -> exists a' u, a = u ++ a' /\ trimStart (a ++ x :: r) = a' ++ x :: r.
Proof.
  intros Hx. induction a as [|c a (a' & u & Ha & IH)].
  - exists [], []. simpl. now rewrite Hx.
  - simpl. destruct (isSpace c).
    + exists a', (c :: u). now rewrite Ha at 1.
    + exists (c :: a), []. now split.
Qed.

(** Trimming cannot cut into a block that has no white space. *)
Lemma trim_app_solid (a p b : str) :
  solid p -> exists a' b', trim (a ++ p ++ b) = a' ++ p ++ b'.
Proof.
  intros [Hne Hall]. unfold trim, trimEnd.
  destruct p as [|x p]; [congruence|].
  destruct (@trimStart_app a x (p ++ b)) as (a' & _ & _ & E).
  { now inversion Hall. }
  change (a ++ (x :: p) ++ b) with (a ++ x :: p ++ b). rewrite E.
  change (a' ++ x :: p ++ b) with (a' ++ (x :: p) ++ b).
  rewrite !rev_app_distr.
  destruct (rev (x :: p)) as [|y q] eqn:Er.
  { apply (f_equal (@List.length _)) in Er. rewrite length_rev in Er. discriminate. }
  assert (Hy : isSpace y = false).
  { rewrite Forall_forall in Hall. apply Hall. apply in_rev. rewrite Er. now left. }
  rewrite <- app_assoc. simpl app.
  destruct (@trimStart_app (rev b) y (q ++ rev a') Hy) as (b' & _ & _ & E').
  rewrite E'. exists a', (rev b').
  change (b' ++ y :: q ++ rev a') with (b' ++ (y :: q) ++ rev a').
  rewrite !rev_app_distr, rev_involutive, <- Er, rev_involutive.
  now rewrite <- app_assoc.
Qed.

Lemma trimStart_sub (s : str) : exists u, s = u ++ trimStart s.
Proof.
  induction s as [|c s [u IH]]; [now exists []|].
  simpl. destruct (isSpace c).
  - exists (c :: u). simpl. now f_equal.
  - now exists [].
Qed.

(** The trimmed string is a block of the string. *)
Lemma trim_sub (s : str) : exists u v, s = u ++ trim s ++ v.
Proof.
  unfold trim, trimEnd.
  destruct (trimStart_sub s) as [u Hu].
  destruct (trimStart_sub (rev (trimStart s))) as [v Hv].
  exists u, (rev v).
  rewrite <- rev_app_distr, <- Hv, rev_involutive. exact Hu.
Qed.


Lemma includes_trim_solid (s p : str) :
  solid p -> includes s p = true -> includes (trim s) p = true.
Proof.
  intros Hp. rewrite !includes_iff. intros (a & b & ->).
  destruct (trim_app_solid a b Hp) as (a' & b' & E). eauto.
Qed.

Lemma trimStart_nil_iff (s : str) : trimStart s = [] <-> forallb isSpace s = true.
Proof.
  induction s as [|c s IH]; simpl; [easy|].
  destruct (isSpace c); simpl; [exact IH|easy].
Qed.

Lemma forallb_trimStart (s : str) :
  forallb isSpace s = true -> forallb isSpace (trimStart s) = true.
Proof. intros H. apply trimStart_nil_iff in H. now rewrite H. Qed.

Lemma trimStart_head (s : str) (c : ascii) (r : str) :
  trimStart s = c :: r -> isSpace c = false.
Proof.
  induction s as [|d s IH]; simpl; [discriminate|].
  destruct (isSpace d) eqn:Ed; [exact IH|].
  now intros [= <- _].
Qed.

(** [trim] gives the empty string exactly on white space. *)
Lemma trim_nil_iff (s : str) : trim s = [] <-> forallb isSpace s = true.
Proof.
  unfold trim, trimEnd. split.
  - intros H. apply (f_equal (@rev _)) in H. rewrite rev_involutive in H. simpl in H.
    apply trimStart_nil_iff in H. rewrite forallb_forall in H.
    apply trimStart_nil_iff.
    destruct (trimStart s) as [|c r] eqn:E; [reflexivity|].
    apply trimStart_head in E.
    rewrite (H c) in E; [discriminate|]. apply -> in_rev. now left.
  - intros H. apply trimStart_nil_iff in H. rewrite H. reflexivity.
Qed.

(** A string that starts with a code unit that is not white space keeps
    it under [trim]. *)
Lemma trim_cons_nonspace (x : ascii) (r : str) :
  isSpace x = false -> exists r', trim (x :: r) = x :: r'.
Proof.
  intros Hx. unfold trim, trimEnd. simpl trimStart. rewrite Hx.
  simpl rev.
  destruct (@trimStart_app (rev r) x [] Hx) as (a' & _ & _ & E).
  rewrite E, rev_app_distr. simpl. eauto.
Qed.

End StringFacts.

(* ===================================================================== *)
(** * The classifier: lemmas *)
(* ===================================================================== *)

Section ClassifierFacts.

Import Server Spec.
Local Open Scope nat_scope.
Local Open Scope list_scope.

(** The cascade is the ordered scan. *)
Lemma ruleChain_firstMatch (n : str) :
  ruleChain n =
  match firstMatch n with
  | Some c => (Some (searchTypeOf c), cannedReply c)
  | None => (None, lit "Saya akan membantu Anda.")
  end.
Proof.
  unfold ruleChain, firstMatch, priority. cbn [find keywordTest].
  destruct (includes n (lit "atm")); [reflexivity|].
  destruct (matchAltI restaurantWords n); [reflexivity|].
  destruct (matchAltI pharmacyWords n); [reflexivity|].
  destruct (matchAltI gasStationWords n); [reflexivity|].
  destruct (matchAltI hospitalWords n); [reflexivity|].
  destruct (matchAltI hotelWords n); reflexivity.
Qed.

(** An ordered scan returns the earliest category whose test holds. *)
Lemma find_priority_spec (f : Category -> bool) (c : Category) :
  find f priority = Some c <->
  f c = true /\ forall c', rank c' < rank c -> f c' = false.
Proof.
  unfold priority. cbn [find]. split.
  - intros H.
    destruct (f ATM) eqn:E1; [|destruct (f Restaurant) eqn:E2;
      [|destruct (f Pharmacy) eqn:E3; [|destruct (f GasStation) eqn:E4;
        [|destruct (f Hospital) eqn:E5; [|destruct (f Hotel) eqn:E6]]]]];
      inversion H; subst c; (split; [assumption|]);
      intros c' Hr; destruct c'; cbn [rank] in Hr; solve [lia | assumption].
  - intros [H1 H2].
    destruct c; cbn [rank] in H2;
      repeat match goal with
             | |- context [f ?c'] =>
                 first [ rewrite H1 | rewrite (H2 c') by (cbn [rank]; lia) ]
             end; reflexivity.
Qed.

Lemma firstMatch_none (n : str) :
  firstMatch n = None <-> forall c, keywordTest c n = false.
Proof.
  unfold firstMatch. split.
  - intros H c. apply (find_none _ _ H). destruct c; cbn; tauto.
  - intros H. unfold priority. cbn [find]. now rewrite !H.
Qed.

(** A message on which a rule fires is answered from the rule alone. *)
Lemma handle_rule (o : Oracle) (message : str) (c : Category) :
  firstMatch (normalize message) = Some c ->
  handle o message =
  (Returned (Json200 {| reply := cannedReply c;
                        userMessage := message;
                        mapData := Some (searchTypeOf c) |}), []).
Proof.
  intros H. unfold handle, ask, tryCatch, bind.
  change (trim (toLowerCase message)) with (normalize message).
  rewrite ruleChain_firstMatch, H.
  destruct c; vm_compute; reflexivity.
Qed.

Lemma prompt_sanitized (message : str) :
  exists c r, sanitizeInput (promptFor message) = c :: r.
Proof.
  unfold sanitizeInput, promptFor.
  destruct (@trim_cons_nonspace (ascii_of_N 65)
              (tl (lit "Analyze: ") ++ dq ++ message ++ dq
               ++ lit ". If location search, respond: " ++ dq
               ++ lit "Saya akan carikan [item] untuk Anda. LOCATION_SEARCH:[type]" ++ dq
               ++ lit " where type is ATM, restaurants, pharmacy, gas station, hospitals, or hotels. If not location search, respond helpfully in Indonesian.")
              eq_refl) as [r' E].
  change (lit "Analyze: " ++ dq ++ message ++ dq
          ++ lit ". If location search, respond: " ++ dq
          ++ lit "Saya akan carikan [item] untuk Anda. LOCATION_SEARCH:[type]" ++ dq
          ++ lit " where type is ATM, restaurants, pharmacy, gas station, hospitals, or hotels. If not location search, respond helpfully in Indonesian.")
    with (ascii_of_N 65 ::
          tl (lit "Analyze: ") ++ dq ++ message ++ dq
          ++ lit ". If location search, respond: " ++ dq
          ++ lit "Saya akan carikan [item] untuk Anda. LOCATION_SEARCH:[type]" ++ dq
          ++ lit " where type is ATM, restaurants, pharmacy, gas station, hospitals, or hotels. If not location search, respond helpfully in Indonesian.").
  rewrite E. simpl. eauto.
Qed.

(** [queryLLM] never throws: it returns the oracle's text, or the fixed
    sentence when both endpoints fail. *)
Lemma queryLLM_run (o : Oracle) (message : str) (log : Log) :
  let p := sanitizeInput (promptFor message) in
  queryLLM o (promptFor message) log =
  (Returned (match oracleText o p with Some t => t | None => unavailable end),
   log ++ oracleCalls o p).
Proof.
  intros p. unfold queryLLM. fold p.
  destruct (prompt_sanitized message) as (c & r & E). fold p in E.
  assert (Ht : truthy (Some p) = true) by now rewrite E.
  rewrite Ht. cbn [negb].
  unfold tryCatch, bind, post, oracleText, oracleCalls, answered, throw, ret.
  destruct (openWebUI o p) as [e1|[[|c1 t1]|]]; cbn [truthy];
    try reflexivity;
    destruct (ollama o p) as [e2|[[|c2 t2]|]]; cbn [truthy];
    rewrite <- ?app_assoc; reflexivity.
Qed.

(** A message on which no rule fires is answered from the oracle. *)
Lemma handle_norule (o : Oracle) (message : str) :
  firstMatch (normalize message) = None ->
  let p := sanitizeInput (promptFor message) in
  let text := match oracleText o p with Some t => t | None => unavailable end in
  handle o message =
  (Returned (Json200 {| reply := trim (replaceMarker text);
                        userMessage := message;
                        mapData := if truthy (extractType text)
                                   then extractType text else None |}),
   oracleCalls o p).
Proof.
  intros H p text. unfold handle, ask.
  change (trim (toLowerCase message)) with (normalize message).
  rewrite ruleChain_firstMatch, H.
  unfold tryCatch at 1. unfold bind at 1. cbn [truthy negb].
  unfold askOracle, tryCatch, bind. rewrite queryLLM_run. fold p. fold text.
  unfold extractType, matchMarker, includes.
  destruct (findFirst marker text) as [[pre post]|]; reflexivity.
Qed.





End ClassifierFacts.

(* ===================================================================== *)
(** * The classifier: properties *)
(* ===================================================================== *)

Section ClassifierProperties.

Import Server Spec.
Local Open Scope nat_scope.
Local Open Scope list_scope.

Lemma ruleChain_none (n : str) :
  fst (ruleChain n) = None <-> firstMatch n = None.
Proof.
  rewrite ruleChain_firstMatch.
  destruct (firstMatch n) as [c|]; simpl; [|tauto].
  split; [destruct c|]; discriminate.
Qed.



(** C2. The rule stage is an ordered first-match scan in the order ATM,
    Restaurant, Pharmacy, GasStation, Hospital, Hotel over the trimmed,
    lower-cased message: the cascade of the handler computes exactly the
    scan; the category returned is the one whose test holds while the
    test of every earlier category fails, so of two matching categories
    the earlier wins; and when a rule matches, the response is the canned
    one whatever the oracle is, with no call made to it. *)
Theorem rule_stage_first_match (message : str) :
  let n := trim (toLowerCase message) in
  ruleChain n =
    match firstMatch n with
    | Some c => (Some (searchTypeOf c), cannedReply c)
    | None => (None, lit "Saya akan membantu Anda.")
    end
  /\ (forall c, firstMatch n = Some c <->
                keywordTest c n = true /\
                forall c', rank c' < rank c -> keywordTest c' n = false)
  /\ (forall c1 c2, keywordTest c1 n = true -> keywordTest c2 n = true ->
                    rank c1 < rank c2 ->
                    exists c, firstMatch n = Some c /\ rank c <= rank c1)
  /\ (forall c, firstMatch n = Some c ->
                forall o : Oracle,
                  handle o message =
                  (Returned (Json200 {| reply := cannedReply c;
                                        userMessage := message;
                                        mapData := Some (searchTypeOf c) |}), [])).
Proof.
  intros n. split; [apply ruleChain_firstMatch|].
  split; [intros c; apply find_priority_spec|].
  split.
  - intros c1 c2 H1 _ _.
    destruct (firstMatch n) as [c|] eqn:E.
    + exists c. split; [reflexivity|].
      apply find_priority_spec in E as [_ E].
      destruct (Nat.le_gt_cases (rank c) (rank c1)) as [|Hlt]; [assumption|].
      apply E in Hlt. congruence.
    + rewrite firstMatch_none in E. rewrite E in H1. discriminate.
  - intros c H o. now apply handle_rule.
Qed.



(** C10. A message that contains the letters a, t, m in a row, in any
    letter case and anywhere (inside a longer word too), is classified as
    ATM with the canned ATM reply, whatever other keywords it contains
    and whatever the oracle is; the oracle is not called. *)
Theorem atm_substring (o : Oracle) (message pre w post : str) :
  message = pre ++ w ++ post ->
  toLowerCase w = lit "atm" ->
  firstMatch (trim (toLowerCase message)) = Some ATM
  /\ handle o message =
     (Returned (Json200 {| reply := lit "Saya akan carikan ATM untuk Anda.";
                           userMessage := message;
                           mapData := Some (lit "ATM") |}), []).
Proof.
  intros -> Hw.
  assert (H : firstMatch (normalize (pre ++ w ++ post)) = Some ATM).
  { apply find_priority_spec. split.
    - cbn [keywordTest]. apply includes_trim_solid.
      + split; [discriminate|]. repeat constructor.
      + apply includes_iff. unfold normalize.
        exists (toLowerCase pre), (toLowerCase post).
        now rewrite !toLowerCase_app, Hw.
    - intros c' Hc. cbn [rank] in Hc. lia. }
  split; [exact H|]. exact (handle_rule o (pre ++ w ++ post) H).
Qed.

End ClassifierProperties.

(* ===================================================================== *)
(** * The resolver: lemmas *)
(* ===================================================================== *)

Section ResolverFacts.

Import Geo Spec.
Local Open Scope Z_scope.
Local Open Scope list_scope.

Lemma sameCache_refl (w : World) : sameCache w w.
Proof. now repeat split. Qed.

Lemma sameCache_trans (w1 w2 w3 : World) :
  sameCache w1 w2 -> sameCache w2 w3 -> sameCache w1 w3.
Proof.
  intros (A1 & A2 & A3) (B1 & B2 & B3).
  repeat split; congruence.
Qed.

Lemma sameCache_valid (b : Browser) (w w' : World) :
  sameCache w w' -> isCacheValid b w = isCacheValid b w'.
Proof. intros (A1 & A2 & _). unfold isCacheValid. now rewrite A1, A2. Qed.

Lemma getGPSLocation_spec (b : Browser) : tierSpec (getGPSLocation b) gps.
Proof.
  intros w. unfold getGPSLocation.
  destruct (geolocation b) as [g|].
  - unfold bind, logCall, modify, ret, throw.
    eexists. split; [|destruct (g gpsOptions); [left|right|right]; eauto].
    now repeat split.
  - exists w. split; [apply sameCache_refl|right]. unfold throw. eauto.
Qed.

Lemma getNetworkLocation_spec (b : Browser) : tierSpec (getNetworkLocation b) network.
Proof.
  intros w. unfold getNetworkLocation.
  destruct (geolocation b) as [g|].
  - unfold bind, logCall, modify, ret, throw.
    eexists. split; [|destruct (g networkOptions); [left|right|right]; eauto].
    now repeat split.
  - exists w. split; [apply sameCache_refl|right]. unfold throw. eauto.
Qed.

Lemma getIPLocation_spec (b : Browser) : tierSpec (getIPLocation b) ip.
Proof.
  intros w. unfold getIPLocation, tryCatch, bind, logCall, modify, ret, throw.
  eexists. split; [|].
  2:{ destruct (fetchIp b) as [e|ok status body]; [right; eauto|].
      destruct ok; cbn [negb]; [|right; eauto].
      destruct body as [e|la lo]; [right; eauto|].
      destruct (falsyNumber la || falsyNumber lo); [right; eauto|].
      destruct la; [|right; eauto]. destruct lo; [|right; eauto].
      left. eauto. }
  now repeat split.
Qed.

(** The static tier cannot fail and touches nothing. *)
Lemma getFallbackLocation_run (b : Browser) (w : World) :
  getFallbackLocation b w = (Returned jakarta, w).
Proof.
  unfold getFallbackLocation, tryCatch, ret, throw.
  destruct (timeZone b) as [tz|]; [|reflexivity].
  destruct (includes tz (lit "Jakarta") || includes tz (lit "Asia/Jakarta"));
    reflexivity.
Qed.

Lemma updateCache_run (b : Browser) (loc : LocationCoords) (w : World) :
  exists w',
    updateCache b loc w = (Returned tt, w')
    /\ cachedLocation w' = Some loc
    /\ cacheTimestamp w' = nowAtUpdate b
    /\ localStorage w' = (if storageThrows b then localStorage w
                          else Some (loc, nowAtUpdate b))
    /\ calls w' = calls w.
Proof. eexists. split; [reflexivity|]. now repeat split. Qed.

(** Whether a tier throws does not depend on the world it runs in. *)
Lemma tier_throws_anywhere (tier : Browser -> Eff World LocationCoords) (b : Browser) :
  (forall w1 w2, match fst (tier b w1), fst (tier b w2) with
                 | Thrown _, Thrown _ | Returned _, Returned _ => True
                 | _, _ => False
                 end) ->
  forall w e w', tier b w = (Thrown e, w') ->
  forall w0, exists e0 w1, tier b w0 = (Thrown e0, w1).
Proof.
  intros H w e w' E w0. specialize (H w w0). rewrite E in H. cbn [fst] in H.
  destruct (tier b w0) as [[loc|e0] w1]; cbn [fst] in H; [contradiction|eauto].
Qed.

Lemma getGPSLocation_uniform (b : Browser) (w1 w2 : World) :
  match fst (getGPSLocation b w1), fst (getGPSLocation b w2) with
  | Thrown _, Thrown _ | Returned _, Returned _ => True
  | _, _ => False
  end.
Proof.
  unfold getGPSLocation, bind, logCall, modify, ret, throw.
  destruct (geolocation b) as [g|]; [|exact I].
  destruct (g gpsOptions); exact I.
Qed.

Lemma getNetworkLocation_uniform (b : Browser) (w1 w2 : World) :
  match fst (getNetworkLocation b w1), fst (getNetworkLocation b w2) with
  | Thrown _, Thrown _ | Returned _, Returned _ => True
  | _, _ => False
  end.
Proof.
  unfold getNetworkLocation, bind, logCall, modify, ret, throw.
  destruct (geolocation b) as [g|]; [|exact I].
  destruct (g networkOptions); exact I.
Qed.

Lemma getIPLocation_uniform (b : Browser) (w1 w2 : World) :
  match fst (getIPLocation b w1), fst (getIPLocation b w2) with
  | Thrown _, Thrown _ | Returned _, Returned _ => True
  | _, _ => False
  end.
Proof.
  unfold getIPLocation, tryCatch, bind, logCall, modify, ret, throw.
  destruct (fetchIp b) as [e|ok status body]; [exact I|].
  destruct ok; cbn [negb]; [|exact I].
  destruct body as [e|la lo]; [exact I|].
  destruct (falsyNumber la || falsyNumber lo); [exact I|].
  destruct la; [|exact I]. destruct lo; exact I.
Qed.

(** Every run returns, in one of the three ways. *)
Lemma getCurrentLocation_run (b : Browser) (w : World) :
  exists loc w', getCurrentLocation b w = (Returned loc, w') /\ Resolution b w loc w'.
Proof.
  unfold getCurrentLocation, bind at 1, get.
  destruct (isCacheValid b w) eqn:Hv.
  { unfold isCacheValid in Hv.
    destruct (cachedLocation w) as [loc|] eqn:Hc; [|discriminate].
    exists loc, w. split; [reflexivity|].
    apply FromCache; [unfold isCacheValid; now rewrite Hc|assumption|reflexivity]. }
  unfold tryCatch at 1, bind at 1.
  destruct (getGPSLocation_spec b w) as (w1 & S1 & [(loc & E & Hs)|(e & E)]); rewrite E.
  { unfold bind.
    destruct (updateCache_run b loc w1) as (w' & -> & U1 & U2 & U3 & _).
    exists loc, w'. split; [reflexivity|].
    destruct S1 as (_ & _ & S13).
    apply FromTier; try assumption;
      [exists w, w1; tauto|rewrite Hs; discriminate|now rewrite S13]. }
  unfold tryCatch at 1, bind at 1.
  destruct (getNetworkLocation_spec b w1) as (w2 & S2 & [(loc & E2 & Hs)|(e2 & E2)]);
    rewrite E2.
  { unfold bind.
    destruct (updateCache_run b loc w2) as (w' & -> & U1 & U2 & U3 & _).
    exists loc, w'. split; [reflexivity|].
    destruct (sameCache_trans S1 S2) as (_ & _ & S13).
    apply FromTier; try assumption;
      [exists w1, w2; tauto|rewrite Hs; discriminate|now rewrite S13]. }
  unfold tryCatch at 1, bind at 1.
  destruct (getIPLocation_spec b w2) as (w3 & S3 & [(loc & E3 & Hs)|(e3 & E3)]);
    rewrite E3.
  { unfold bind.
    destruct (updateCache_run b loc w3) as (w' & -> & U1 & U2 & U3 & _).
    exists loc, w'. split; [reflexivity|].
    destruct (sameCache_trans (sameCache_trans S1 S2) S3) as (_ & _ & S13).
    apply FromTier; try assumption;
      [exists w2, w3; tauto|rewrite Hs; discriminate|now rewrite S13]. }
  unfold bind. rewrite getFallbackLocation_run.
  exists jakarta, w3. split; [reflexivity|].
  apply FromFallback; try assumption; try reflexivity.
  - exact (tier_throws_anywhere getGPSLocation b (getGPSLocation_uniform b) w E).
  - exact (tier_throws_anywhere getNetworkLocation b (getNetworkLocation_uniform b) w1 E2).
  - exact (tier_throws_anywhere getIPLocation b (getIPLocation_uniform b) w2 E3).
  - exact (sameCache_trans (sameCache_trans S1 S2) S3).
Qed.

End ResolverFacts.

(* ===================================================================== *)
(** * The resolver: properties *)
(* ===================================================================== *)

Section ResolverProperties.

Import Geo Spec.
Local Open Scope Z_scope.
Local Open Scope list_scope.


(** C6. When a cached location exists and is younger than five minutes,
    [getCurrentLocation] returns it and leaves the world as it is, call
    log included, so no positioning source is asked; hence a second call
    made while the entry left by the first is fresh returns the location
    the first returned and asks no source. *)
Theorem cache_hit (b1 b2 : Browser) (w : World) :
  (isCacheValid b1 w = true ->
   exists loc, cachedLocation w = Some loc
               /\ getCurrentLocation b1 w = (Returned loc, w))
  /\ (forall loc1 w1,
        getCurrentLocation b1 w = (Returned loc1, w1) ->
        nowAtCheck b1 <= nowAtCheck b2 ->
        isCacheValid b2 w1 = true ->
        getCurrentLocation b2 w1 = (Returned loc1, w1)).
Proof.
  assert (Hit : forall b w0, isCacheValid b w0 = true ->
                  exists loc, cachedLocation w0 = Some loc
                              /\ getCurrentLocation b w0 = (Returned loc, w0)).
  { intros b w0 Hv. unfold getCurrentLocation, bind at 1, get. rewrite Hv.
    unfold isCacheValid in Hv.
    destruct (cachedLocation w0) as [loc|]; [|discriminate]. eauto. }
  split; [apply Hit|].
  intros loc1 w1 E Hmono Hv2.
  destruct (Hit b2 w1 Hv2) as (loc2 & Hc2 & E2). rewrite E2.
  destruct (getCurrentLocation_run b1 w) as (loc & w' & E' & R).
  rewrite E in E'. inversion E'; subst loc w'. clear E'.
  destruct R as [_ Hc ->|_ _ _ Hc _ _|Hv1 _ _ _ _ S].
  - congruence.
  - congruence.
  - exfalso. rewrite <- (sameCache_valid b2 S) in Hv2.
    unfold isCacheValid in Hv1, Hv2.
    destruct (cachedLocation w); [|discriminate].
    apply Z.ltb_lt in Hv2. apply Z.ltb_ge in Hv1. lia.
Qed.

(** C7, amended. A run that the cache does not serve ends in one of two
    ways.  Either a location was acquired from the GPS, network or IP
    tier: then the in-memory cache holds that location with the clock
    reading taken at the update, whatever it held before, and so does the
    stored copy unless the write to storage throws.  Or the three tiers
    failed and the static fallback is returned: then the in-memory cache
    and the stored copy are left as they were. *)
Theorem cache_overwrite (b : Browser) (w : World) (loc : LocationCoords) (w' : World) :
  isCacheValid b w = false ->
  getCurrentLocation b w = (Returned loc, w') ->
  ((exists w0 w1,
       getGPSLocation b w0 = (Returned loc, w1)
       \/ getNetworkLocation b w0 = (Returned loc, w1)
       \/ getIPLocation b w0 = (Returned loc, w1))
   /\ source loc <> fallback
   /\ cachedLocation w' = Some loc
   /\ cacheTimestamp w' = nowAtUpdate b
   /\ localStorage w' = (if storageThrows b then localStorage w
                         else Some (loc, nowAtUpdate b)))
  \/ ((forall w0, exists e w1, getGPSLocation b w0 = (Thrown e, w1))
      /\ (forall w0, exists e w1, getNetworkLocation b w0 = (Thrown e, w1))
      /\ (forall w0, exists e w1, getIPLocation b w0 = (Thrown e, w1))
      /\ loc = jakarta
      /\ cachedLocation w' = cachedLocation w
      /\ cacheTimestamp w' = cacheTimestamp w
      /\ localStorage w' = localStorage w).
Proof.
  intros Hv E.
  destruct (getCurrentLocation_run b w) as (loc0 & w0 & E' & R).
  rewrite E in E'. inversion E'; subst loc0 w0. clear E'.
  destruct R as [Hv' _ _|_ A Hs Hc Ht Hl|_ Hg Hn Hi -> (S1 & S2 & S3)].
  - congruence.
  - left. tauto.
  - right. repeat split; auto.
Qed.

(** C8, evaluated on the code. The two one-shot tiers tag a location by
    the kind of request that produced it (a high-accuracy request gives
    gps, a low-power request gives network); every update of
    [watchPosition] is cached and delivered with the tag gps although the
    watch is registered as a low-power request, whose tag is network. *)
Theorem watch_update_tag (b : Browser) (position : Position) (w : World) :
  tierSpec (getGPSLocation b) (tierOfRequest gpsOptions)
  /\ tierSpec (getNetworkLocation b) (tierOfRequest networkOptions)
  /\ enableHighAccuracy watchOptions = false
  /\ tierOfRequest watchOptions = network
  /\ exists loc w',
       onWatchSuccess b position w = (Returned loc, w')
       /\ cachedLocation w' = Some loc
       /\ source loc = gps.
Proof.
  split; [apply getGPSLocation_spec|].
  split; [apply getNetworkLocation_spec|].
  split; [reflexivity|]. split; [reflexivity|].
  eexists _, _. split; [reflexivity|]. now split.
Qed.

End ResolverProperties.

(* ===================================================================== *)
(** * Distance *)
(* ===================================================================== *)

Section Distance.

Import Geo.
Local Open Scope R_scope.

Lemma PI_lower : 3.13 < PI.
Proof.
  pose proof (PI_2_3_7_ineq 0) as [H _].
  unfold sum_f_R0, tg_alt, PI_2_3_7_tg, Ratan_seq in H. simpl in H.
  lra.
Qed.

Lemma PI_upper : PI < 3.15.
Proof.
  pose proof (PI_2_3_7_ineq 1) as [_ H].
  unfold sum_f_R0, tg_alt, PI_2_3_7_tg, Ratan_seq in H. simpl in H.
  lra.
Qed.

(** The haversine term is even in each difference. *)
Lemma sin_half_sym (x y : R) :
  sin (toRadians (x - y) / 2) * sin (toRadians (x - y) / 2) =
  sin (toRadians (y - x) / 2) * sin (toRadians (y - x) / 2).
Proof.
  replace (toRadians (x - y) / 2) with (- (toRadians (y - x) / 2))
    by (unfold toRadians; field).
  rewrite sin_neg. ring.
Qed.

Lemma atan2_0_1 : atan2 0 1 = 0.
Proof.
  unfold atan2. destruct (Rlt_dec 0 1) as [_|H]; [|lra].
  replace (0 / 1) with 0 by field. apply atan_0.
Qed.

(** In the first quadrant [atan2] recovers the angle. *)
Lemma atan2_sin_cos (h : R) :
  0 < h < PI / 2 -> atan2 (sin h) (cos h) = h.
Proof.
  intros [H0 H1]. unfold atan2.
  assert (Hc : 0 < cos h) by (apply cos_gt_0; lra).
  destruct (Rlt_dec 0 (cos h)) as [_|H]; [|contradiction].
  change (sin h / cos h) with (tan h). apply atan_tan. lra.
Qed.

Lemma getDistance_self (A : LocationCoords) : getDistance A A = 0.
Proof.
  unfold getDistance.
  replace (Q2R (lat A) - Q2R (lat A)) with 0 by ring.
  replace (Q2R (lng A) - Q2R (lng A)) with 0 by ring.
  replace (toRadians 0 / 2) with 0 by (unfold toRadians; field).
  rewrite sin_0.
  replace (0 * 0 + cos (toRadians (Q2R (lat A))) * cos (toRadians (Q2R (lat A))) * 0 * 0)
    with 0 by ring.
  replace (1 - 0) with 1 by ring.
  rewrite sqrt_0, sqrt_1, atan2_0_1. ring.
Qed.

Lemma getDistance_sym (A B : LocationCoords) : getDistance A B = getDistance B A.
Proof.
  unfold getDistance.
  rewrite (sin_half_sym (Q2R (lat B)) (Q2R (lat A))).
  rewrite !Rmult_assoc.
  rewrite (sin_half_sym (Q2R (lng B)) (Q2R (lng A))).
  rewrite <- !Rmult_assoc.
  rewrite (Rmult_comm (cos (toRadians (Q2R (lat A)))) (cos (toRadians (Q2R (lat B))))).
  reflexivity.
Qed.

(** One degree of latitude along a meridian, starting at the equator. *)
Lemma getDistance_one_degree (A B : LocationCoords) :
  Q2R (lat A) = 0 -> Q2R (lat B) = 1 -> Q2R (lng A) = Q2R (lng B) ->
  getDistance A B = 6371 * (PI / 180).
Proof.
  intros HA HB HL. unfold getDistance. rewrite HA, HB, HL.
  replace (Q2R (lng B) - Q2R (lng B)) with 0 by ring.
  replace (toRadians 0 / 2) with 0 by (unfold toRadians; field).
  replace (toRadians (1 - 0) / 2) with (PI / 360) by (unfold toRadians; field).
  rewrite sin_0.
  pose proof PI_lower as Hl. pose proof PI_upper as Hu.
  set (h := PI / 360).
  assert (Hh : 0 < h < PI / 2) by (unfold h; lra).
  assert (Hs : 0 < sin h) by (apply sin_gt_0; lra).
  assert (Hc : 0 < cos h) by (apply cos_gt_0; lra).
  replace (sin h * sin h + cos (toRadians 0) * cos (toRadians 1) * 0 * 0)
    with (sin h * sin h) by ring.
  replace (1 - sin h * sin h) with (cos h * cos h).
  2:{ pose proof (sin2_cos2 h) as E. unfold Rsqr in E. lra. }
  rewrite !sqrt_square by lra.
  rewrite atan2_sin_cos by exact Hh.
  unfold h. field.
Qed.

(** C9. [getDistance] is a function of its two arguments that computes
    the haversine great-circle distance with Earth radius 6371 km; the
    distance from a point to itself is 0; the distance is symmetric; two
    points one degree of latitude apart on a meridian, one of them on the
    equator, are 111 km apart within one per cent. *)
Theorem getDistance_properties :
  (forall A, getDistance A A = 0)
  /\ (forall A B, getDistance A B = getDistance B A)
  /\ (forall A B,
        Q2R (lat A) = 0 -> Q2R (lat B) = 1 -> Q2R (lng A) = Q2R (lng B) ->
        getDistance A B = 6371 * (PI / 180)
        /\ Rabs (getDistance A B - 111) <= 111 / 100).
Proof.
  split; [exact getDistance_self|].
  split; [exact getDistance_sym|].
  intros A B HA HB HL.
  rewrite (getDistance_one_degree A B HA HB HL).
  split; [reflexivity|].
  pose proof PI_lower. pose proof PI_upper.
  apply Rabs_le. lra.
Qed.

End Distance.

(* ===================================================================== *)
(** * Concrete runs *)
(* ===================================================================== *)

Section Runs.

Import Server Geo Spec Samples.
Local Open Scope list_scope.

(** Hospital and hotel keywords in one message: the hospital rule is the
    earlier one. *)
Lemma rule_stage_first_match_run :
  keywordTest Hotel (trim (toLowerCase (lit "Hotel dekat Rumah Sakit"))) = true
  /\ firstMatch (trim (toLowerCase (lit "Hotel dekat Rumah Sakit"))) = Some Hospital
  /\ handle silent (lit "Hotel dekat Rumah Sakit") =
     (Returned (Json200 {| reply := lit "Saya akan carikan rumah sakit untuk Anda.";
                           userMessage := lit "Hotel dekat Rumah Sakit";
                           mapData := Some (lit "hospitals") |}), []).
Proof.
  destruct (rule_stage_first_match (lit "Hotel dekat Rumah Sakit")) as (_ & _ & _ & H).
  split; [vm_compute; reflexivity|].
  split; [vm_compute; reflexivity|].
  apply (H Hospital). vm_compute. reflexivity.
Defined.

(** The word atmosphere, capitals and a restaurant keyword. *)
Lemma atm_substring_run :
  firstMatch (trim (toLowerCase (lit "What is the ATMosphere, restoran?"))) = Some ATM
  /\ handle silent (lit "What is the ATMosphere, restoran?") =
     (Returned (Json200 {| reply := lit "Saya akan carikan ATM untuk Anda.";
                           userMessage := lit "What is the ATMosphere, restoran?";
                           mapData := Some (lit "ATM") |}), []).
Proof.
  apply (@atm_substring silent (lit "What is the ATMosphere, restoran?")
           (lit "What is the ") (lit "ATM") (lit "osphere, restoran?"));
    reflexivity.
Defined.






(** A second call one minute after a GPS fix. *)
Lemma cache_hit_run :
  getCurrentLocation later (snd (getCurrentLocation outdoors initial))
  = getCurrentLocation outdoors initial.
Proof.
  apply (proj2 (cache_hit outdoors later initial));
    [reflexivity | discriminate | reflexivity].
Defined.

(** C7, as stated, fails: a run that ends in the static fallback leaves
    the cache and the stored copy empty. *)
Lemma fallback_not_cached :
  getCurrentLocation denied initial =
  (Returned jakarta,
   {| cachedLocation := None;
      cacheTimestamp := 0;
      localStorage := None;
      calls := [GetCurrentPosition gpsOptions;
                GetCurrentPosition networkOptions;
                FetchIp] |}).
Proof. reflexivity. Qed.

Lemma cache_overwrite_run :
  let loc := {| lat := -7.2575; lng := 112.7521; accuracy := Some 12%Q; source := gps |} in
  let w' := snd (getCurrentLocation outdoors initial) in
  ((exists w0 w1,
       getGPSLocation outdoors w0 = (Returned loc, w1)
       \/ getNetworkLocation outdoors w0 = (Returned loc, w1)
       \/ getIPLocation outdoors w0 = (Returned loc, w1))
   /\ source loc <> fallback
   /\ cachedLocation w' = Some loc
   /\ cacheTimestamp w' = nowAtUpdate outdoors
   /\ localStorage w' = (if storageThrows outdoors then localStorage initial
                         else Some (loc, nowAtUpdate outdoors)))
  \/ ((forall w0, exists e w1, getGPSLocation outdoors w0 = (Thrown e, w1))
      /\ (forall w0, exists e w1, getNetworkLocation outdoors w0 = (Thrown e, w1))
      /\ (forall w0, exists e w1, getIPLocation outdoors w0 = (Thrown e, w1))
      /\ loc = jakarta
      /\ cachedLocation w' = cachedLocation initial
      /\ cacheTimestamp w' = cacheTimestamp initial
      /\ localStorage w' = localStorage initial).
Proof.
  apply (cache_overwrite outdoors initial); reflexivity.
Defined.

(** From latitude 0 to latitude 1 on the meridian of Jakarta. *)
Lemma getDistance_run :
  getDistance equator0 equator1 = (6371 * (PI / 180))%R
  /\ (Rabs (getDistance equator0 equator1 - 111) <= 111 / 100)%R.
Proof.
  apply (proj2 (proj2 getDistance_properties) equator0 equator1);
    unfold Q2R; simpl; lra.
Defined.

End Runs.

(* ===================================================================== *)
(** * Strings: further lemmas *)
(* ===================================================================== *)

Section MoreStringFacts.

Import Text.
Local Open Scope nat_scope.
Local Open Scope list_scope.

Lemma trimEnd_prefix (s : str) : exists v, s = trimEnd s ++ v.
Proof.
  unfold trimEnd. destruct (trimStart_sub (rev s)) as [u Hu].
  exists (rev u). rewrite <- rev_app_distr, <- Hu. now rewrite rev_involutive.
Qed.

Lemma trim_trimmed (s : str) : trimmed (trim s).
Proof.
  split.
  - intros c r E. unfold trim in E.
    destruct (trimEnd_prefix (trimStart s)) as [v Hv]. rewrite E in Hv.
    now apply trimStart_head in Hv.
  - intros c r E. unfold trim, trimEnd in E.
    apply (f_equal (@rev _)) in E. rewrite rev_involutive, rev_app_distr in E.
    now apply trimStart_head in E.
Qed.

(** A string whose two ends are not white space is left alone. *)
Lemma trim_fixed (s : str) (c d : ascii) (r r' : str) :
  s = c :: r -> rev s = d :: r' ->
  isSpace c = false -> isSpace d = false -> trim s = s.
Proof.
  intros Hs Hr Hc Hd. unfold trim, trimEnd.
  rewrite Hs at 1. simpl trimStart. rewrite Hc, <- Hs, Hr.
  simpl trimStart. rewrite Hd, <- Hr. apply rev_involutive.
Qed.

Lemma trim_length (s : str) : List.length (trim s) <= List.length s.
Proof.
  destruct (trim_sub s) as (u & v & E). rewrite E at 2.
  rewrite !length_app. lia.
Qed.

Lemma forallb_block (f : ascii -> bool) (u s v : str) :
  forallb f (u ++ s ++ v) = true -> forallb f s = true.
Proof.
  rewrite !forallb_app. intros H.
  apply andb_true_iff in H as [_ H]. now apply andb_true_iff in H as [H _].
Qed.

Lemma forallb_trim (f : ascii -> bool) (s : str) :
  forallb f s = true -> forallb f (trim s) = true.
Proof.
  intros H. destruct (trim_sub s) as (u & v & E). rewrite E in H.
  now apply forallb_block in H.
Qed.

Lemma takeWhile_all (f : ascii -> bool) (s : str) : forallb f (takeWhile f s) = true.
Proof.
  induction s as [|c s IH]; simpl; [reflexivity|].
  destruct (f c) eqn:E; simpl; [now rewrite E|reflexivity].
Qed.

Lemma firstn_nil_iff (n : nat) (s : str) : firstn (S n) s = [] <-> s = [].
Proof. destruct s; simpl; split; congruence. Qed.

End MoreStringFacts.

(* ===================================================================== *)
(** * The servers: further properties *)
(* ===================================================================== *)

Section ServerProperties.

Import Server Spec Text.
Local Open Scope nat_scope.
Local Open Scope list_scope.

(** [sanitizeInput] gives at most 500 code units, never starts with
    white space, and is empty exactly on blank input. *)
Theorem sanitizeInput_bounds (input : str) :
  List.length (sanitizeInput input) <= 500
  /\ (forall c r, sanitizeInput input = c :: r -> isSpace c = false)
  /\ (sanitizeInput input = [] <-> forallb isSpace input = true).
Proof.
  unfold sanitizeInput, slice0. split; [apply firstn_le_length|]. split.
  - intros c r E. destruct (trim input) as [|c' t] eqn:Et; [discriminate|].
    simpl in E. injection E as <- _.
    exact (proj1 (trim_trimmed input) c' t Et).
  - rewrite firstn_nil_iff. apply trim_nil_iff.
Qed.

(** [queryLLM], for any prompt: it never throws and never returns the
    empty string; a blank prompt is answered without any call; otherwise
    the primary endpoint is asked, and the secondary one only when the
    primary gave no text, both with the sanitised prompt. *)
Theorem queryLLM_calls (o : Oracle) (prompt : str) (log : Log) :
  let p := sanitizeInput prompt in
  exists text calls,
    queryLLM o prompt log = (Returned text, log ++ calls)
    /\ text <> []
    /\ ((p = [] /\ calls = [] /\ text = lit "Invalid input provided")
        \/ (p <> [] /\ answered (openWebUI o p) = Some text
            /\ calls = [PostOpenWebUI p])
        \/ (p <> [] /\ answered (openWebUI o p) = None
            /\ calls = [PostOpenWebUI p; PostOllama p]
            /\ (answered (ollama o p) = Some text
                \/ (answered (ollama o p) = None /\ text = unavailable)))).
Proof.
  intros p. unfold queryLLM. fold p.
  destruct p as [|c r] eqn:Ep.
  - exists (lit "Invalid input provided"), []. cbn [truthy negb].
    rewrite app_nil_r. split; [reflexivity|]. split; [discriminate|]. now left.
  - cbn [truthy negb].
    unfold tryCatch, bind, post, throw, ret, answered.
    destruct (openWebUI o (c :: r)) as [e1|[[|c1 t1]|]]; cbn [truthy].
    3:{ exists (c1 :: t1), [PostOpenWebUI (c :: r)].
        split; [reflexivity|]. split; [discriminate|].
        right; left. repeat split. discriminate. }
    all: destruct (ollama o (c :: r)) as [e2|[[|c2 t2]|]]; cbn [truthy];
      rewrite <- ?app_assoc; cbn [app];
      eexists _, _; (split; [reflexivity|]); (split; [discriminate|]);
      right; right; (split; [discriminate|]); (split; [reflexivity|]);
      (split; [reflexivity|]); first [left; reflexivity | right; now split].
Qed.

Lemma promptFor_trim (message : str) : trim (promptFor message) = promptFor message.
Proof.
  assert (Ht : forall tail, tail = lit " where type is ATM, restaurants, pharmacy, gas station, hospitals, or hotels. If not location search, respond helpfully in Indonesian." ->
               rev tail = ascii_of_N 46 :: tl (rev tail)).
  { intros tail ->. vm_compute. reflexivity. }
  eapply trim_fixed with (c := ascii_of_N 65) (d := ascii_of_N 46).
  - reflexivity.
  - unfold promptFor. rewrite !app_assoc, rev_app_distr.
    rewrite (Ht _ eq_refl). reflexivity.
  - reflexivity.
  - reflexivity.
Qed.

(** The prompt is cut at 500 code units after the template is filled in:
    the oracle is sent the first 500 code units of the prompt, and for a
    message of 490 code units or more that is the opening of the
    template and the first 490 code units of the message, with none of
    the instructions that follow it. *)
Theorem long_message_prompt (message : str) :
  490 <= List.length message ->
  sanitizeInput (promptFor message) = firstn 500 (promptFor message)
  /\ sanitizeInput (promptFor message) = lit "Analyze: " ++ dq ++ firstn 490 message.
Proof.
  intros H. unfold sanitizeInput, slice0. rewrite promptFor_trim.
  split; [reflexivity|].
  unfold promptFor.
  change (lit "Analyze: " ++ dq ++ message ++ ?x)
    with ((lit "Analyze: " ++ dq) ++ message ++ x).
  rewrite firstn_app. change (List.length (lit "Analyze: " ++ dq)) with 10.
  change (firstn 500 (lit "Analyze: " ++ dq)) with (lit "Analyze: " ++ dq).
  change (500 - 10) with 490.
  rewrite firstn_app.
  replace (490 - List.length message) with 0 by lia.
  rewrite firstn_O, app_nil_r. now rewrite <- app_assoc.
Qed.

(** A message on which no rule fires and an oracle text without the
    marker: the reply is the oracle text, trimmed, and no map is
    attached. *)
Theorem conversational_reply (o : Oracle) (message t : str) :
  fst (ruleChain (trim (toLowerCase message))) = None ->
  oracleText o (sanitizeInput (promptFor message)) = Some t ->
  includes t marker = false ->
  fst (handle o message) =
  Returned (Json200 {| reply := trim t; userMessage := message; mapData := None |}).
Proof.
  intros Hr Ho Hi. apply ruleChain_none in Hr.
  rewrite (handle_norule o message Hr), Ho. cbn [fst].
  unfold includes in Hi. unfold replaceMarker, extractType.
  destruct (findFirst marker t) as [[pre post]|]; [discriminate|reflexivity].
Qed.

(** The oracle calls of one request: none when a rule fires; otherwise
    one call to the primary endpoint, followed by one call to the
    secondary endpoint exactly when the primary gave no text.  Never more
    than two. *)
Theorem handler_calls (o : Oracle) (message : str) :
  let n := trim (toLowerCase message) in
  let p := sanitizeInput (promptFor message) in
  (fst (ruleChain n) <> None -> snd (handle o message) = [])
  /\ (fst (ruleChain n) = None ->
      snd (handle o message) =
      PostOpenWebUI p ::
        match answered (openWebUI o p) with
        | Some _ => []
        | None => [PostOllama p]
        end)
  /\ List.length (snd (handle o message)) <= 2.
Proof.
  intros n p.
  destruct (firstMatch n) as [c|] eqn:E.
  - rewrite (handle_rule o message E). cbn [snd].
    split; [reflexivity|]. split; [|simpl; lia].
    intros H. apply ruleChain_none in H. congruence.
  - rewrite (handle_norule o message E). cbn [snd]. fold p.
    unfold oracleCalls.
    split; [intros H; exfalso; apply H; now apply ruleChain_none|].
    split; [intros _|]; destruct (answered (openWebUI o p)); simpl; auto.
Qed.

(** The search query attached to a response, when there is one, is not
    empty, is trimmed, and holds no line feed and no double quote. *)
Theorem searchQuery_clean (o : Oracle) (message : str) :
  exists body log,
    handle o message = (Returned (Json200 body), log)
    /\ forall q, mapData body = Some q ->
                 q <> [] /\ trimmed q /\ forallb notNewlineOrQuote q = true.
Proof.
  destruct (firstMatch (normalize message)) as [c|] eqn:E.
  - eexists _, _. split; [apply (handle_rule o message E)|]. cbn [mapData].
    intros q [= <-]. split; [destruct c; discriminate|].
    split; [|destruct c; reflexivity].
    destruct c; (split; intros ch r Hs;
      [ injection Hs as <- _; reflexivity
      | apply (f_equal (@rev _)) in Hs; rewrite rev_app_distr in Hs;
        vm_compute in Hs; injection Hs as <- _; reflexivity ]).
  - eexists _, _. split; [apply (handle_norule o message E)|]. cbn [mapData].
    set (text := match oracleText o _ with Some t => t | None => unavailable end).
    unfold extractType.
    destruct (findFirst marker text) as [[pre post]|]; [|discriminate].
    destruct (trim (takeWhile notNewlineOrQuote post)) as [|ch q'] eqn:Eq;
      cbn [truthy]; [discriminate|].
    intros q [= <-]. split; [discriminate|]. rewrite <- Eq.
    split; [apply trim_trimmed|apply forallb_trim, takeWhile_all].
Qed.

End ServerProperties.

(* ===================================================================== *)
(** * The first server: properties *)
(* ===================================================================== *)

Section LegacyProperties.

Import Server Spec Text Session.
Local Open Scope nat_scope.
Local Open Scope list_scope.

Lemma legacy_queryLLM_run (o : Legacy.Oracle) (prompt : str) (log : Log) :
  Legacy.queryLLM o prompt log =
  (Returned (legacyText o prompt), log ++ legacyCalls o prompt).
Proof.
  unfold Legacy.queryLLM, legacyText, legacyCalls, tryCatch, post, ret.
  destruct (Legacy.openWebUI o prompt) as [e| |c]; [| |reflexivity];
    destruct (Legacy.ollama o prompt) as [e2|f];
    rewrite <- ?app_assoc; reflexivity.
Qed.

Lemma rule_message_nonempty (message : str) (c : Category) :
  firstMatch (normalize message) = Some c -> exists a m, message = a :: m.
Proof.
  destruct message as [|a m]; [|eauto].
  vm_compute. discriminate.
Qed.

Lemma legacy_handle_rule (o : Legacy.Oracle) (message : str) (c : Category) :
  firstMatch (normalize message) = Some c ->
  Legacy.handle o message =
  (Returned (Legacy.Json200 {| reply := cannedReply c;
                               userMessage := message;
                               mapData := Some (searchTypeOf c) |}), []).
Proof.
  intros H. destruct (rule_message_nonempty message H) as (a & m & ->).
  unfold Legacy.handle, Legacy.ask, tryCatch, bind. cbn [truthy negb].
  change (trim (toLowerCase (a :: m))) with (normalize (a :: m)).
  rewrite ruleChain_firstMatch, H.
  destruct c; vm_compute; reflexivity.
Qed.

Lemma legacy_handle_norule (o : Legacy.Oracle) (a : ascii) (m : str) :
  firstMatch (normalize (a :: m)) = None ->
  Legacy.handle o (a :: m) =
  (Returned (Legacy.Json200
     match legacyText o (promptFor (a :: m)) with
     | Some t => {| reply := trim (replaceMarker t);
                    userMessage := a :: m;
                    mapData := if truthy (extractType t) then extractType t else None |}
     | None => {| reply := lit "Maaf, silakan coba lagi.";
                  userMessage := a :: m;
                  mapData := None |}
     end),
   legacyCalls o (promptFor (a :: m))).
Proof.
  intros H. unfold Legacy.handle, Legacy.ask. cbn [truthy negb].
  change (trim (toLowerCase (a :: m))) with (normalize (a :: m)).
  rewrite ruleChain_firstMatch, H.
  unfold tryCatch at 1. unfold bind at 1. cbn [truthy negb].
  unfold Legacy.askOracle, tryCatch, bind. rewrite legacy_queryLLM_run.
  cbn [app].
  destruct (legacyText o (promptFor (a :: m))) as [t|]; [|reflexivity].
  unfold extractType, matchMarker, includes.
  destruct (findFirst marker t) as [[pre post]|]; reflexivity.
Qed.

(** In the first server an oracle answer without text is not a failure
    of [queryLLM]: undefined reaches the handler, reading it throws, and
    the handler's own catch answers with the apology, no map, status
    200. *)
Theorem legacy_absent_text (o : Legacy.Oracle) (message : str) :
  message <> [] ->
  fst (ruleChain (trim (toLowerCase message))) = None ->
  legacyText o (promptFor message) = None ->
  fst (Legacy.handle o message) =
  Returned (Legacy.Json200 {| reply := lit "Maaf, silakan coba lagi.";
                              userMessage := message;
                              mapData := None |}).
Proof.
  intros Hm Hr Ht. apply ruleChain_none in Hr.
  destruct message as [|a m]; [congruence|].
  rewrite (@legacy_handle_norule o a m Hr), Ht. reflexivity.
Qed.


End LegacyProperties.

(* ===================================================================== *)
(** * The resolver: further properties *)
(* ===================================================================== *)

Section ResolverMore.

Import Geo Spec Session.
Local Open Scope Z_scope.
Local Open Scope list_scope.

Ltac run_tiers :=
  unfold getCurrentLocation, getGPSLocation, getNetworkLocation, getIPLocation,
    getFallbackLocation, updateCache, logCall, tryCatch, bind, get, modify, ret, throw.

Ltac break_match :=
  match goal with
  | |- context [match ?x with _ => _ end] =>
      lazymatch x with
      | context [match _ with _ => _ end] => fail
      | _ => destruct x; cbv beta iota
      end
  end.

(** What a run does when the cache does not serve it depends on the
    browser only, not on what the cache held. *)
Lemma miss_ignores_cache (b : Browser) (w1 w2 : World) :
  isCacheValid b w1 = false -> isCacheValid b w2 = false ->
  fst (getCurrentLocation b w1) = fst (getCurrentLocation b w2).
Proof.
  intros H1 H2. run_tiers. rewrite H1, H2.
  destruct (geolocation b) as [g|]; repeat break_match; reflexivity.
Qed.

Lemma restore_after_reload (b b' : Browser) (loc : LocationCoords) (w : World) :
  storageThrows b = false ->
  storageThrows b' = false ->
  nowAtCheck b' - nowAtUpdate b < 30 * 60 * 1000 ->
  restoreFromCache b' (reload (snd (updateCache b loc w))) =
  (Returned (Some loc),
   {| cachedLocation := Some loc;
      cacheTimestamp := nowAtUpdate b;
      localStorage := Some (loc, nowAtUpdate b);
      calls := calls w |}).
Proof.
  intros Hb Hb' Hage.
  unfold restoreFromCache, reload, updateCache, modify.
  cbn [snd localStorage cachedLocation cacheTimestamp calls].
  rewrite Hb, Hb'.
  apply Z.ltb_lt in Hage. rewrite Hage. reflexivity.
Qed.

(** A location written by [updateCache] is found again by
    [restoreFromCache] after a page reload, with the time stamp of the
    update, as long as storage works and less than thirty minutes have
    passed. *)
Theorem stored_location_survives_reload
        (b b' : Browser) (loc : LocationCoords) (w : World) :
  storageThrows b = false ->
  storageThrows b' = false ->
  nowAtCheck b' - nowAtUpdate b < 30 * 60 * 1000 ->
  restoreFromCache b' (reload (snd (updateCache b loc w))) =
  (Returned (Some loc),
   {| cachedLocation := Some loc;
      cacheTimestamp := nowAtUpdate b;
      localStorage := Some (loc, nowAtUpdate b);
      calls := calls w |}).
Proof. exact (restore_after_reload b b' loc w). Qed.

(** [restoreFromCache] keeps the time stamp under which the entry was
    stored, so the five-minute window of [getCurrentLocation] is counted
    from the original update: a restored entry younger than five minutes
    is served without any source call, and one that is older is ignored,
    the run being the one an empty cache would give. *)
Theorem restored_entry_age (b b' b'' : Browser) (loc : LocationCoords) (w : World) :
  storageThrows b = false ->
  storageThrows b' = false ->
  nowAtCheck b' - nowAtUpdate b < 30 * 60 * 1000 ->
  let w' := snd (restoreFromCache b' (reload (snd (updateCache b loc w)))) in
  (nowAtCheck b'' - nowAtUpdate b < CACHE_DURATION ->
   getCurrentLocation b'' w' = (Returned loc, w'))
  /\ (CACHE_DURATION <= nowAtCheck b'' - nowAtUpdate b ->
      fst (getCurrentLocation b'' w') = fst (getCurrentLocation b'' initial)).
Proof.
  intros Hb Hb' Hage w'. unfold w'.
  rewrite (restore_after_reload b b' loc w Hb Hb' Hage). cbn [snd].
  split.
  - intros H. unfold getCurrentLocation, bind, get, isCacheValid.
    cbn [cachedLocation cacheTimestamp].
    apply Z.ltb_lt in H. rewrite H. reflexivity.
  - intros H. apply miss_ignores_cache; [|reflexivity].
    unfold isCacheValid. cbn [cachedLocation cacheTimestamp]. now apply Z.ltb_ge.
Qed.

(** [restoreFromCache] never throws, never writes to storage and never
    asks a source.  When it returns null the service is left as it was;
    it returns a location only when storage is readable and holds that
    location with a time stamp less than thirty minutes old, and then the
    in-memory cache holds the location under that time stamp. *)
Theorem restoreFromCache_cases (b : Browser) (w : World) :
  exists r w',
    restoreFromCache b w = (Returned r, w')
    /\ localStorage w' = localStorage w
    /\ calls w' = calls w
    /\ (r = None -> w' = w)
    /\ (forall loc, r = Some loc ->
          exists ts,
            storageThrows b = false
            /\ localStorage w = Some (loc, ts)
            /\ nowAtCheck b - ts < 30 * 60 * 1000
            /\ cachedLocation w' = Some loc
            /\ cacheTimestamp w' = ts).
Proof.
  unfold restoreFromCache.
  destruct (storageThrows b) eqn:Hs.
  { exists None, w. repeat split; auto. discriminate. }
  destruct (localStorage w) as [[loc ts]|] eqn:Hl.
  2:{ exists None, w. repeat split; auto. discriminate. }
  destruct (nowAtCheck b - ts <? 30 * 60 * 1000) eqn:Ht.
  - eexists _, _. split; [reflexivity|]. cbn.
    repeat split; auto; try discriminate.
    intros loc' [= <-]. exists ts. apply Z.ltb_lt in Ht. now repeat split.
  - exists None, w. repeat split; auto. discriminate.
Qed.

(** After [clearCache] no clock makes the in-memory cache valid, and,
    when storage works, nothing is left to restore. *)
Theorem clearCache_forgets (b b' : Browser) (w : World) :
  let w' := snd (clearCache b w) in
  isCacheValid b' w' = false
  /\ calls w' = calls w
  /\ (storageThrows b = false -> restoreFromCache b' w' = (Returned None, w'))
  /\ (storageThrows b = true -> localStorage w' = localStorage w).
Proof.
  unfold clearCache, modify. cbn.
  split; [reflexivity|]. split; [reflexivity|]. split.
  - intros ->. unfold restoreFromCache. cbn. destruct (storageThrows b'); reflexivity.
  - intros ->. reflexivity.
Qed.

(** The message built by [formatGeolocationError] is never empty; for
    the codes 1, 2 and 3 it does not depend on the message of the
    browser, and for any other code it is that message when there is
    one. *)
Theorem formatGeolocationError_message (error : PositionError) :
  formatGeolocationError error <> []
  /\ (1 <= code error <= 3 ->
      forall m, formatGeolocationError {| code := code error; message := m |}
                = formatGeolocationError error)
  /\ (code error < 1 \/ 3 < code error ->
      message error <> [] -> formatGeolocationError error = message error).
Proof.
  unfold formatGeolocationError. cbn [code message].
  destruct (code error =? 1) eqn:E1; [|destruct (code error =? 2) eqn:E2;
    [|destruct (code error =? 3) eqn:E3]].
  - split; [discriminate|]. split; [reflexivity|].
    apply Z.eqb_eq in E1. intros; lia.
  - split; [discriminate|]. split; [reflexivity|].
    apply Z.eqb_eq in E2. intros; lia.
  - split; [discriminate|]. split; [reflexivity|].
    apply Z.eqb_eq in E3. intros; lia.
  - apply Z.eqb_neq in E1, E2, E3.
    destruct (message error) as [|c r] eqn:Em; cbn [truthy].
    + split; [discriminate|]. split; [intros; lia|]. intros _ H. now elim H.
    + split; [discriminate|]. split; [intros; lia|]. reflexivity.
Qed.

(** The IP tier makes one request.  It returns only a location whose
    latitude and longitude are both non-zero, tagged ip and without an
    accuracy; an answer with a zero (or missing) coordinate is rejected
    like any failure, and every failure carries a message that starts
    with the same prefix. *)
Theorem getIPLocation_cases (b : Browser) (w : World) :
  exists r w',
    getIPLocation b w = (r, w')
    /\ calls w' = calls w ++ [FetchIp]
    /\ sameCache w w'
    /\ match r with
       | Returned loc =>
           ~ (lat loc == 0)%Q /\ ~ (lng loc == 0)%Q
           /\ source loc = ip /\ accuracy loc = None
           /\ exists status,
                fetchIp b = FetchResolved true status
                              (JsonData (Some (lat loc)) (Some (lng loc)))
       | Thrown e => exists e', e = lit "IP location failed: " ++ e'
       end.
Proof.
  unfold getIPLocation, tryCatch, bind, logCall, modify, ret, throw.
  assert (Hframe : forall cs,
            sameCache w {| cachedLocation := cachedLocation w;
                           cacheTimestamp := cacheTimestamp w;
                           localStorage := localStorage w;
                           calls := cs |}) by (intros; now repeat split).
  destruct (fetchIp b) as [e|ok status body] eqn:Hf.
  { eexists _, _. split; [reflexivity|]. cbn [calls]. eauto. }
  destruct ok; cbn [negb];
    [|eexists _, _; split; [reflexivity|]; cbn [calls]; eauto].
  destruct body as [e|la lo];
    [eexists _, _; split; [reflexivity|]; cbn [calls]; eauto|].
  destruct la as [la|]; cbn [falsyNumber orb];
    [|eexists _, _; split; [reflexivity|]; cbn [calls]; eauto].
  destruct (Qeq_bool la 0) eqn:Ea; cbn [orb];
    [eexists _, _; split; [reflexivity|]; cbn [calls]; eauto|].
  destruct lo as [lo|]; cbn [falsyNumber orb];
    [|eexists _, _; split; [reflexivity|]; cbn [calls]; eauto].
  destruct (Qeq_bool lo 0) eqn:Eo; cbn [orb];
    [eexists _, _; split; [reflexivity|]; cbn [calls]; eauto|].
  eexists _, _. split; [reflexivity|]. cbn [calls lat lng source accuracy].
  apply Qeq_bool_neq in Ea, Eo. repeat split; eauto.
Qed.

(** The sources are asked strictly in order, each only after the one
    before it failed: nothing when the cache serves the call; otherwise
    precise positioning, then low-power positioning, then the IP lookup,
    stopping at the first that succeeds; the IP lookup alone when the
    browser has no geolocation.  A run never registers a watch. *)
Theorem tier_sequence (b : Browser) (w : World) :
  let w' := snd (getCurrentLocation b w) in
  if isCacheValid b w then calls w' = calls w
  else match geolocation b with
       | None => calls w' = calls w ++ [FetchIp]
       | Some g =>
           calls w' =
           calls w ++ callGps ::
             (if succeeds (g gpsOptions) then []
              else callNetwork ::
                     (if succeeds (g networkOptions) then [] else [FetchIp]))
       end.
Proof.
  cbv zeta. run_tiers.
  destruct (isCacheValid b w) eqn:Hv.
  { destruct (cachedLocation w); reflexivity. }
  destruct (geolocation b) as [g|].
  - destruct (g gpsOptions); cbn [succeeds]; [reflexivity| |];
      (destruct (g networkOptions); cbn [succeeds];
       [cbn [snd calls]; rewrite <- app_assoc; reflexivity| |]);
      repeat break_match; cbn [snd calls]; rewrite <- ?app_assoc; reflexivity.
  - repeat break_match; reflexivity.
Qed.

(** A position delivered to the watch is what [getCurrentLocation]
    returns for the next five minutes, without asking any source. *)
Theorem watch_feeds_cache (b b' : Browser) (position : Position) (w : World) :
  nowAtCheck b' - nowAtUpdate b < CACHE_DURATION ->
  getCurrentLocation b' (snd (onWatchSuccess b position w))
  = onWatchSuccess b position w.
Proof.
  intros H. unfold onWatchSuccess, updateCache, bind, modify, ret. cbn [snd].
  unfold getCurrentLocation, bind, get, isCacheValid.
  cbn [cachedLocation cacheTimestamp].
  apply Z.ltb_lt in H. rewrite H. reflexivity.
Qed.

End ResolverMore.

(* ===================================================================== *)
(** * Distance: further properties *)
(* ===================================================================== *)

Section DistanceMore.

Import Geo.
Local Open Scope R_scope.

Lemma atan2_sin_cos_closed (h : R) :
  0 <= h <= PI / 2 -> atan2 (sin h) (cos h) = h.
Proof.
  intros [H0 H1]. pose proof PI_RGT_0 as Hpi.
  destruct H0 as [H0|H0]; destruct H1 as [H1|H1].
  - now apply atan2_sin_cos.
  - rewrite H1, sin_PI2, cos_PI2. unfold atan2.
    destruct (Rlt_dec 0 0) as [C|_]; [lra|].
    destruct (Rlt_dec 0 1) as [_|C]; [reflexivity|lra].
  - rewrite <- H0, sin_0, cos_0. apply atan2_0_1.
  - lra.
Qed.

(** The distance when the haversine term is the squared sine of half an
    angle between 0 and 180 degrees. *)
Lemma arc_of_half_angle (h : R) :
  0 <= h <= PI / 2 ->
  6371 * (2 * atan2 (sqrt (sin h * sin h)) (sqrt (1 - sin h * sin h))) = 6371 * (2 * h).
Proof.
  intros Hh. pose proof PI_RGT_0 as Hpi.
  assert (Hs : 0 <= sin h) by (apply sin_ge_0; lra).
  assert (Hc : 0 <= cos h) by (apply cos_ge_0; lra).
  replace (1 - sin h * sin h) with (cos h * cos h).
  2:{ pose proof (sin2_cos2 h) as E. unfold Rsqr in E. lra. }
  rewrite !sqrt_square by assumption.
  now rewrite atan2_sin_cos_closed.
Qed.

(** Two points on one meridian, the second up to 180 degrees of
    latitude north of the first, are as far apart as the arc between
    them is long. *)
Theorem getDistance_meridian (A B : LocationCoords) :
  Q2R (lng A) = Q2R (lng B) ->
  0 <= Q2R (lat B) - Q2R (lat A) <= 180 ->
  getDistance A B = 6371 * toRadians (Q2R (lat B) - Q2R (lat A)).
Proof.
  intros HL [H0 H1]. unfold getDistance. rewrite HL.
  replace (Q2R (lng B) - Q2R (lng B)) with 0 by ring.
  replace (toRadians 0 / 2) with 0 by (unfold toRadians; field).
  rewrite sin_0.
  set (h := toRadians (Q2R (lat B) - Q2R (lat A)) / 2).
  replace (sin h * sin h
           + cos (toRadians (Q2R (lat A))) * cos (toRadians (Q2R (lat B))) * 0 * 0)
    with (sin h * sin h) by ring.
  pose proof PI_RGT_0 as Hpi.
  rewrite arc_of_half_angle.
  - unfold h. field.
  - unfold h, toRadians. split.
    + apply Rmult_le_pos; [apply Rmult_le_pos|]; lra.
    + assert ((Q2R (lat B) - Q2R (lat A)) * (PI / 180) <= 180 * (PI / 180)).
      { apply Rmult_le_compat_r; lra. }
      lra.
Qed.

(** Two points on the equator, the second up to 180 degrees of
    longitude east of the first, are as far apart as the arc between
    them is long. *)
Theorem getDistance_equator (A B : LocationCoords) :
  Q2R (lat A) = 0 -> Q2R (lat B) = 0 ->
  0 <= Q2R (lng B) - Q2R (lng A) <= 180 ->
  getDistance A B = 6371 * toRadians (Q2R (lng B) - Q2R (lng A)).
Proof.
  intros HA HB [H0 H1]. unfold getDistance. rewrite HA, HB.
  replace (toRadians (0 - 0) / 2) with 0 by (unfold toRadians; field).
  replace (toRadians 0) with 0 by (unfold toRadians; field).
  rewrite sin_0, cos_0.
  set (h := toRadians (Q2R (lng B) - Q2R (lng A)) / 2).
  replace (0 * 0 + 1 * 1 * sin h * sin h) with (sin h * sin h) by ring.
  pose proof PI_RGT_0 as Hpi.
  rewrite arc_of_half_angle.
  - unfold h. field.
  - unfold h, toRadians. split.
    + apply Rmult_le_pos; [apply Rmult_le_pos|]; lra.
    + assert ((Q2R (lng B) - Q2R (lng A)) * (PI / 180) <= 180 * (PI / 180)).
      { apply Rmult_le_compat_r; lra. }
      lra.
Qed.

End DistanceMore.

(* ===================================================================== *)
(** * The search box: properties *)
(* ===================================================================== *)

Section AppProperties.

Import App.
Local Open Scope Z_scope.
Local Open Scope list_scope.

(** The retry loop: what it yields and what it does. *)
Lemma fetchLoop_run (n : Net) (q : str) (v : View) :
  exists r,
    fetchLoop n q 3 0 v =
    (r, {| state := state v; events := events v ++ attempts q (attemptCount n) |})
    /\ match firstResolved n with
       | Some x => r = Returned (Some x)
       | None => exists e, r = Thrown e
       end.
Proof.
  unfold fetchLoop, doFetch, emit, tryCatch, bind, modify, ret, throw,
    attemptCount, firstResolved.
  cbn [Nat.eqb state events].
  destruct (askFetch n 0%nat) as [e0|ok0 s0 b0]; cbv beta iota; cbn [state events].
  2:{ eexists. split; reflexivity. }
  destruct (askFetch n 1%nat) as [e1|ok1 s1 b1]; cbv beta iota; cbn [state events].
  2:{ eexists. rewrite <- !app_assoc. split; reflexivity. }
  destruct (askFetch n 2%nat) as [e2|ok2 s2 b2]; cbv beta iota; cbn [state events];
    eexists; rewrite <- !app_assoc; (split; [reflexivity|]); eauto.
Qed.

Lemma attemptCount_range (n : Net) : (1 <= attemptCount n <= 3)%nat.
Proof.
  unfold attemptCount.
  destruct (askFetch n 0%nat); [destruct (askFetch n 1%nat)|]; lia.
Qed.

(** What a search with a non-blank query does, in closed form. *)
Lemma handleSearch_run (n : Net) (q : str) (v : View) :
  trim q <> [] ->
  handleSearch n q v =
  (Returned tt,
   {| state :=
        match answer n with
        | Some data =>
            {| query := [];
               loading := false;
               responses := responses (state v) ++ [data];
               pendingMaps :=
                 match mapQuery data with
                 | Some sq =>
                     pendingMaps (state v)
                     ++ [(sq, lit "map-" ++ Geo.decimal (mapCounter (state v) + 1)
                                ++ lit "-" ++ Geo.decimal (now n))]
                 | None => pendingMaps (state v)
                 end;
               mapCounter :=
                 match mapQuery data with
                 | Some _ => mapCounter (state v) + 1
                 | None => mapCounter (state v)
                 end |}
        | None =>
            {| query := query (state v);
               loading := false;
               responses := responses (state v) ++ [errorCard n q];
               pendingMaps := pendingMaps (state v);
               mapCounter := mapCounter (state v) |}
        end;
      events := events v ++ attempts q (attemptCount n) |}).
Proof.
  intros Hq. unfold handleSearch.
  destruct (trim q) as [|c t] eqn:Et; [congruence|]. cbn [truthy negb].
  unfold tryFinally, bind at 1, setLoading, setState, modify.
  unfold tryCatch, bind at 1.
  match goal with
  | |- context [fetchLoop n q 3 0 ?w] =>
      destruct (fetchLoop_run n q w) as (r & -> & Hr)
  end.
  cbn [state events] in *.
  unfold answer, mapQuery, errorCard.
  destruct (firstResolved n) as [[[ok status] body]|].
  - subst r. destruct ok; cbn [negb];
      [|unfold throw, pushResponse, setState, modify; reflexivity].
    destruct body as [data|];
      [|unfold throw, pushResponse, setState, modify; reflexivity].
    unfold bind, pushResponse, queueMap, setQuery, setState, modify, ret.
    destruct (mapData data) as [m|]; [|reflexivity].
    destruct (searchQuery m) as [|c0 t0]; reflexivity.
  - destruct Hr as [e ->].
    unfold pushResponse, setState, modify. reflexivity.
Qed.

Lemma handleSearch_blank (n : Net) (q : str) (v : View) :
  trim q = [] -> handleSearch n q v = (Returned tt, v).
Proof. intros H. unfold handleSearch. now rewrite H. Qed.

(** A blank query is not searched: nothing is posted and the state is
    left as it was (the loading flag is not even raised). *)
Theorem search_blank_noop (n : Net) (q : str) (v : View) :
  forallb isSpace q = true -> handleSearch n q v = (Returned tt, v).
Proof.
  intros H. apply trim_nil_iff in H. now apply handleSearch_blank.
Qed.

(** A search posts the query as typed, between one and three times: a
    further attempt is made, after a pause of a second, only when the
    attempt before it was rejected; an attempt that resolves, whatever
    its status, ends the loop. *)
Theorem search_attempts (n : Net) (q : str) (v : View) :
  trim q <> [] ->
  events (snd (handleSearch n q v)) = events v ++ attempts q (attemptCount n)
  /\ (1 <= attemptCount n <= 3)%nat
  /\ (forall ok status body,
        askFetch n 0%nat = AskResolved ok status body -> attemptCount n = 1%nat).
Proof.
  intros Hq. rewrite (handleSearch_run n q v Hq). cbn [snd events].
  split; [reflexivity|]. split; [apply attemptCount_range|].
  intros ok status body E. unfold attemptCount. now rewrite E.
Qed.


(** A search that obtains no data (all three attempts rejected, or a
    status that is not ok, or a body that does not parse) keeps the text
    of the input, queues no map and leaves the map counter alone. *)
Theorem search_failure_keeps_query (n : Net) (q : str) (v : View) :
  trim q <> [] ->
  answer n = None ->
  let s' := state (snd (handleSearch n q v)) in
  query s' = query (state v)
  /\ pendingMaps s' = pendingMaps (state v)
  /\ mapCounter s' = mapCounter (state v)
  /\ responses s' = responses (state v) ++ [errorCard n q].
Proof.
  intros Hq Ha. rewrite (handleSearch_run n q v Hq), Ha. cbn. auto.
Qed.

(** A search that obtains data clears the input; it queues a map, under
    an id made of the incremented counter and the clock, exactly when the
    data carries a non-empty search query, and otherwise leaves queue and
    counter alone. *)
Theorem search_success_queues_map (n : Net) (q : str) (v : View) (data : ApiResponse) :
  trim q <> [] ->
  answer n = Some data ->
  let s' := state (snd (handleSearch n q v)) in
  query s' = []
  /\ match mapQuery data with
     | Some sq =>
         pendingMaps s' =
         pendingMaps (state v)
         ++ [(sq, lit "map-" ++ Geo.decimal (mapCounter (state v) + 1)
                    ++ lit "-" ++ Geo.decimal (now n))]
         /\ mapCounter s' = mapCounter (state v) + 1
     | None =>
         pendingMaps s' = pendingMaps (state v)
         /\ mapCounter s' = mapCounter (state v)
     end.
Proof.
  intros Hq Ha. rewrite (handleSearch_run n q v Hq), Ha. cbn [snd state query pendingMaps mapCounter].
  split; [reflexivity|]. destruct (mapQuery data); auto.
Qed.

(** A quick suggestion is put into the input, but what is searched is
    the text the input held in the render that created the handler: the
    events are those of a search for that text, and when that text was
    blank nothing is posted and no card is added. *)
Theorem quickSearch_searches_old_query (n : Net) (q suggestion : str) (v : View) :
  events (snd (quickSearch n q suggestion v)) = events (snd (handleSearch n q v))
  /\ (forallb isSpace q = true ->
      quickSearch n q suggestion v =
      (Returned tt,
       {| state := {| query := suggestion;
                      loading := loading (state v);
                      responses := responses (state v);
                      pendingMaps := pendingMaps (state v);
                      mapCounter := mapCounter (state v) |};
          events := events v |})).
Proof.
  unfold quickSearch, bind, setQuery, setState, modify.
  split.
  - destruct (trim q) as [|c t] eqn:Et.
    + rewrite !(fun w => handleSearch_blank n q w Et). reflexivity.
    + assert (Hq : trim q <> []) by (rewrite Et; discriminate).
      rewrite !(fun w => handleSearch_run n q w Hq). reflexivity.
  - intros H. apply trim_nil_iff in H.
    rewrite (handleSearch_blank n q _ H). reflexivity.
Qed.

End AppProperties.

(* ===================================================================== *)
(** * Frontend and backend together *)
(* ===================================================================== *)

Section Suggestions.

Import Server Spec.
Local Open Scope list_scope.

(** Each of the five quick suggestions of the frontend is answered by a
    keyword rule of the server, with the category its button shows
    (restaurant, ATM, hospital, pharmacy, petrol station), whatever the
    oracle is and without calling it. *)
Theorem suggestions_ruled :
  Forall2
    (fun s c =>
       forall o : Oracle,
         handle o s =
         (Returned (Json200 {| reply := cannedReply c;
                               userMessage := s;
                               mapData := Some (searchTypeOf c) |}), []))
    App.suggestions
    [Restaurant; ATM; Hospital; Pharmacy; GasStation].
Proof.
  unfold App.suggestions. cbn [map].
  repeat constructor; intros o; apply handle_rule; vm_compute; reflexivity.
Qed.

End Suggestions.

(* ===================================================================== *)
(** * Further concrete runs *)
(* ===================================================================== *)

Section MoreRuns.

Import Server Geo Spec Samples MoreSamples Session Text.
Local Open Scope list_scope.

(** A message of 490 letters. *)
Lemma long_message_prompt_run :
  sanitizeInput (promptFor (copies 490 (ascii_of_N 120)))
  = firstn 500 (promptFor (copies 490 (ascii_of_N 120)))
  /\ sanitizeInput (promptFor (copies 490 (ascii_of_N 120)))
     = lit "Analyze: " ++ dq ++ firstn 490 (copies 490 (ascii_of_N 120)).
Proof.
  apply (long_message_prompt (copies 490 (ascii_of_N 120))).
  apply Nat.leb_le. vm_compute. reflexivity.
Defined.

Lemma conversational_reply_run :
  fst (handle (saying (lit "  Halo! Ada yang bisa saya bantu?  ")) (lit "apa kabar")) =
  Returned (Json200 {| reply := trim (lit "  Halo! Ada yang bisa saya bantu?  ");
                       userMessage := lit "apa kabar";
                       mapData := None |}).
Proof.
  apply (@conversational_reply
           (saying (lit "  Halo! Ada yang bisa saya bantu?  ")) (lit "apa kabar")
           (lit "  Halo! Ada yang bisa saya bantu?  "));
    vm_compute; reflexivity.
Defined.

Lemma legacy_absent_text_run :
  fst (Legacy.handle hollow (lit "apa kabar")) =
  Returned (Legacy.Json200 {| reply := lit "Maaf, silakan coba lagi.";
                              userMessage := lit "apa kabar";
                              mapData := None |}).
Proof.
  apply (@legacy_absent_text hollow (lit "apa kabar"));
    [discriminate | vm_compute; reflexivity | reflexivity].
Defined.


(** A GPS fix, a reload a minute later. *)
Lemma stored_location_survives_reload_run :
  restoreFromCache later (reload (snd (updateCache outdoors surabaya initial))) =
  (Returned (Some surabaya),
   {| cachedLocation := Some surabaya;
      cacheTimestamp := nowAtUpdate outdoors;
      localStorage := Some (surabaya, nowAtUpdate outdoors);
      calls := calls initial |}).
Proof.
  apply (@stored_location_survives_reload outdoors later surabaya initial);
    reflexivity.
Defined.

(** The same reload, then a call a minute after the fix and a call a
    quarter of an hour after it. *)
Lemma restored_entry_age_run :
  let w' := snd (restoreFromCache later (reload (snd (updateCache outdoors surabaya initial)))) in
  getCurrentLocation later w' = (Returned surabaya, w')
  /\ fst (getCurrentLocation quarterLater w') = fst (getCurrentLocation quarterLater initial).
Proof.
  destruct (@restored_entry_age outdoors later later surabaya initial
              eq_refl eq_refl eq_refl) as [H _].
  destruct (@restored_entry_age outdoors later quarterLater surabaya initial
              eq_refl eq_refl eq_refl) as [_ H'].
  split; [apply H; reflexivity|apply H'; discriminate].
Defined.

Lemma watch_feeds_cache_run :
  getCurrentLocation later
    (snd (onWatchSuccess outdoors
            {| latitude := -6.2; longitude := 106.8; coordsAccuracy := 1500 |} initial))
  = onWatchSuccess outdoors
      {| latitude := -6.2; longitude := 106.8; coordsAccuracy := 1500 |} initial.
Proof.
  apply (@watch_feeds_cache outdoors later
           {| latitude := -6.2; longitude := 106.8; coordsAccuracy := 1500 |} initial).
  reflexivity.
Defined.

(** From the equator to the pole: a quarter of a great circle. *)
Lemma getDistance_meridian_run :
  getDistance equator0 pole
  = (6371 * toRadians (Q2R (lat pole) - Q2R (lat equator0)))%R.
Proof.
  apply (@getDistance_meridian equator0 pole);
    unfold Q2R; simpl; [reflexivity|lra].
Defined.

(** Ten degrees along the equator. *)
Lemma getDistance_equator_run :
  getDistance equator0 equatorEast
  = (6371 * toRadians (Q2R (lng equatorEast) - Q2R (lng equator0)))%R.
Proof.
  apply (@getDistance_equator equator0 equatorEast);
    unfold Q2R; simpl; lra.
Defined.

End MoreRuns.

Section SearchRuns.

Import App MoreSamples.
Local Open Scope list_scope.

Lemma search_blank_noop_run :
  handleSearch offline (lit "   ") blank = (Returned tt, blank).
Proof. apply (@search_blank_noop offline (lit "   ") blank). reflexivity. Defined.

(** Two rejected attempts, then an answer. *)
Lemma search_attempts_run :
  events (snd (handleSearch flaky (lit "ATM terdekat") blank))
  = events blank ++ attempts (lit "ATM terdekat") (attemptCount flaky)
  /\ (1 <= attemptCount flaky <= 3)%nat
  /\ (forall ok status body,
        askFetch flaky 0%nat = AskResolved ok status body ->
        attemptCount flaky = 1%nat).
Proof.
  apply (@search_attempts flaky (lit "ATM terdekat") blank). discriminate.
Defined.


Lemma search_failure_keeps_query_run :
  let s' := state (snd (handleSearch offline (lit "ATM terdekat") blank)) in
  query s' = query (state blank)
  /\ pendingMaps s' = pendingMaps (state blank)
  /\ mapCounter s' = mapCounter (state blank)
  /\ responses s' = responses (state blank) ++ [errorCard offline (lit "ATM terdekat")].
Proof.
  apply (@search_failure_keeps_query offline (lit "ATM terdekat") blank);
    [discriminate|reflexivity].
Defined.

Lemma search_success_queues_map_run :
  let s' := state (snd (handleSearch flaky (lit "ATM terdekat") blank)) in
  query s' = []
  /\ match mapQuery atmAnswer with
     | Some sq =>
         pendingMaps s' =
         pendingMaps (state blank)
         ++ [(sq, lit "map-" ++ Geo.decimal (mapCounter (state blank) + 1)
                    ++ lit "-" ++ Geo.decimal (now flaky))]
         /\ mapCounter s' = (mapCounter (state blank) + 1)%Z
     | None =>
         pendingMaps s' = pendingMaps (state blank)
         /\ mapCounter s' = mapCounter (state blank)
     end.
Proof.
  apply (@search_success_queues_map flaky (lit "ATM terdekat") blank atmAnswer);
    [discriminate|reflexivity].
Defined.

End SearchRuns.

(* ===================================================================== *)
(** * Oracle answers of any type: lemmas *)
(* ===================================================================== *)

Section WireFacts.

Import Server Spec Text.
Local Open Scope nat_scope.
Local Open Scope list_scope.

Lemma wire_queryLLM_run (o : Wire.Oracle) (message : str) (log : Log) :
  let p := sanitizeInput (promptFor message) in
  Wire.queryLLM o (promptFor message) log =
  (Returned (Wire.oracleValue o p), log ++ Wire.oracleCalls o p).
Proof.
  intros p. unfold Wire.queryLLM. fold p.
  destruct (prompt_sanitized message) as (c & r & E). fold p in E.
  assert (Ht : truthy (Some p) = true) by now rewrite E.
  rewrite Ht. cbn [negb].
  unfold tryCatch, bind, Wire.post, Wire.oracleValue, Wire.oracleCalls,
    Wire.answered, throw, ret.
  destruct (Wire.openWebUI o p) as [e1|f1].
  - destruct (Wire.ollama o p) as [e2|f2]; [|destruct (Wire.truthyValue f2) eqn:T2];
      rewrite <- ?app_assoc; try reflexivity.
    destruct f2 as [j|]; [reflexivity|discriminate].
  - destruct (Wire.truthyValue f1) eqn:T1.
    + destruct f1 as [j|]; [reflexivity|discriminate].
    + destruct (Wire.ollama o p) as [e2|f2]; [|destruct (Wire.truthyValue f2) eqn:T2];
        rewrite <- ?app_assoc; try reflexivity.
      destruct f2 as [j|]; [reflexivity|discriminate].
Qed.

(** The shared handler body on a message on which a rule fires. *)
Lemma respond_rule (message : str) (query : Eff Log Wire.Value) (log : Log)
      (c : Category) :
  firstMatch (normalize message) = Some c ->
  Wire.respond message query log =
  (Returned {| reply := cannedReply c;
               userMessage := message;
               mapData := Some (searchTypeOf c) |}, log).
Proof.
  intros H. unfold Wire.respond.
  change (trim (toLowerCase message)) with (normalize message).
  rewrite ruleChain_firstMatch, H.
  destruct c; vm_compute; reflexivity.
Qed.

(** The shared handler body on a message on which no rule fires, for a
    query that returns [v]. *)
Lemma respond_norule (message : str) (query : Eff Log Wire.Value)
      (v : Wire.Value) (log log' : Log) :
  firstMatch (normalize message) = None ->
  query log = (Returned v, log') ->
  Wire.respond message query log =
  (match Wire.bodyFor message v with
   | Some body => Returned body
   | None => Thrown (lit "TypeError")
   end, log').
Proof.
  intros H Hq. unfold Wire.respond.
  change (trim (toLowerCase message)) with (normalize message).
  rewrite ruleChain_firstMatch, H.
  unfold bind at 1. cbn [truthy negb].
  unfold Wire.askOracle, tryCatch, bind at 1. rewrite Hq.
  unfold Wire.bodyFor, Wire.apology.
  destruct v as [[|b|q|t|items|members]|]; try reflexivity.
  - unfold Wire.callIncludes, bind, ret, Wire.callMatch, Wire.callReplace.
    unfold extractType, matchMarker, includes.
    destruct (findFirst marker t) as [[pre post]|]; reflexivity.
  - unfold Wire.callIncludes, bind, ret, Wire.callMatch, Wire.callReplace, throw.
    destruct (Wire.hasElement marker items); reflexivity.
Qed.

Lemma wire_handle_rule (o : Wire.Oracle) (message : str) (c : Category) :
  firstMatch (normalize message) = Some c ->
  Wire.handle o message =
  (Returned (Json200 {| reply := cannedReply c;
                        userMessage := message;
                        mapData := Some (searchTypeOf c) |}), []).
Proof.
  intros H. unfold Wire.handle, Wire.ask, tryCatch, bind.
  now rewrite (@respond_rule message _ [] c H).
Qed.

Lemma wire_handle_norule (o : Wire.Oracle) (message : str) :
  firstMatch (normalize message) = None ->
  let p := sanitizeInput (promptFor message) in
  Wire.handle o message =
  (Returned (match Wire.bodyFor message (Wire.oracleValue o p) with
             | Some body => Json200 body
             | None => Json500 (lit "Internal server error. Please try again later.")
             end),
   Wire.oracleCalls o p).
Proof.
  intros H p. unfold Wire.handle, Wire.ask, tryCatch, bind.
  rewrite (@respond_norule message _ _ [] _ H (wire_queryLLM_run o message [])).
  fold p. cbn [app].
  destruct (Wire.bodyFor message (Wire.oracleValue o p)); reflexivity.
Qed.


Lemma legacywire_handle_rule (o : LegacyWire.Oracle) (message : str) (c : Category) :
  firstMatch (normalize message) = Some c ->
  LegacyWire.handle o message =
  (Returned (Legacy.Json200 {| reply := cannedReply c;
                               userMessage := message;
                               mapData := Some (searchTypeOf c) |}), []).
Proof.
  intros H. destruct (rule_message_nonempty message H) as (a & m & ->).
  unfold LegacyWire.handle, LegacyWire.ask, tryCatch, bind. cbn [truthy negb].
  now rewrite (@respond_rule (a :: m) _ [] c H).
Qed.


(** With string answers the handler of this section is the handler of
    [Server]. *)
Lemma wire_embed (o : Server.Oracle) (message : str) :
  Wire.handle (Wire.embed o) message = Server.handle o message.
Proof.
  destruct (firstMatch (normalize message)) as [c|] eqn:E.
  - now rewrite (wire_handle_rule _ message E), (handle_rule o message E).
  - rewrite (wire_handle_norule _ message E), (handle_norule o message E).
    set (p := sanitizeInput (promptFor message)).
    unfold Wire.oracleValue, Wire.oracleCalls, Wire.answered, Wire.embed,
      Wire.embedAnswer, oracleText, oracleCalls, answered, unavailable.
    cbn [Wire.openWebUI Wire.ollama].
    destruct (openWebUI o p) as [e1|[[|c1 t1]|]]; cbn [Wire.truthyValue truthy];
      try reflexivity;
      destruct (ollama o p) as [e2|[[|c2 t2]|]]; cbn [Wire.truthyValue truthy];
      reflexivity.
Qed.




Lemma escape_clean (s : str) :
  Forall (fun c => Request.escapeChar c = [c]) s -> Request.escape s = s.
Proof.
  unfold Request.escape. induction 1 as [|c s Hc _ IH]; [reflexivity|].
  cbn [flat_map]. now rewrite Hc, IH.
Qed.

End WireFacts.

(* ===================================================================== *)
(** * Oracle answers of any type: properties *)
(* ===================================================================== *)

Section WireProperties.

Import Server Spec Text.
Local Open Scope nat_scope.
Local Open Scope list_scope.

(** C3, evaluated on the code. On a message on which no rule matches:
    when both endpoints reject, time out or resolve without a truthy
    field, the handler answers normally with the fixed sentence
    LLM service unavailable. Please try again later. and no search type;
    when the field is a truthy number, boolean or object, reading it
    throws inside the inner try and the handler answers normally with
    the apology Maaf, silakan coba lagi. and no search type; when the
    field is an array, the call of includes succeeds, the call of replace
    after the inner try throws, and the handler sends the error response
    of its outer catch, status 500, unless the array holds the marker
    string as an element. *)
Theorem oracle_failure_cases (o : Wire.Oracle) (message : str) :
  let p := sanitizeInput (promptFor message) in
  fst (ruleChain (trim (toLowerCase message))) = None ->
  (Wire.answered (Wire.openWebUI o p) = None ->
   Wire.answered (Wire.ollama o p) = None ->
   Wire.handle o message =
   (Returned (Json200 {| reply := unavailable;
                         userMessage := message;
                         mapData := None |}),
    [PostOpenWebUI p; PostOllama p]))
  /\ (Wire.plain (Wire.oracleValue o p) = true ->
      fst (Wire.handle o message) = Returned (Json200 (Wire.apology message)))
  /\ (forall items,
        Wire.oracleValue o p = Some (Wire.JArr items) ->
        fst (Wire.handle o message) =
        Returned (if Wire.hasElement marker items
                  then Json200 (Wire.apology message)
                  else Json500 (lit "Internal server error. Please try again later."))).
Proof.
  intros p Hr. apply ruleChain_none in Hr.
  rewrite (wire_handle_norule o message Hr). fold p. cbn [fst].
  split; [|split].
  - intros H1 H2. unfold Wire.oracleValue, Wire.oracleCalls. rewrite H1, H2.
    reflexivity.
  - unfold Wire.plain, Wire.bodyFor.
    destruct (Wire.oracleValue o p) as [[|b|q|t|items|members]|];
      try discriminate; reflexivity.
  - intros items ->. unfold Wire.bodyFor.
    destruct (Wire.hasElement marker items); reflexivity.
Qed.



(** A request whose message the validation of the second server passes
    on unchanged (no white space at either end, none of the eight
    characters that are escaped, at most 500 code units, a valid
    location) and on which a keyword rule fires is answered with the same
    body by the two versions of the server, and neither calls the
    oracle. *)
Theorem servers_agree_on_clean_requests
        (o : Wire.Oracle) (o' : LegacyWire.Oracle) (b : Request.Body) :
  trim (Request.message b) = Request.message b ->
  Forall (fun c => Request.escapeChar c = [c]) (Request.message b) ->
  List.length (Request.message b) <= 500 ->
  Request.locationValid (Request.userLocation b) = true ->
  fst (ruleChain (trim (toLowerCase (Request.message b)))) <> None ->
  Request.validateAskRequest b = Some (Request.message b)
  /\ exists body,
       Request.serve o b = (Returned (Request.Handled (Json200 body)), [])
       /\ LegacyWire.handle o' (Request.message b)
          = (Returned (Legacy.Json200 body), []).
Proof.
  intros Ht He Hl Hloc Hr.
  destruct (firstMatch (normalize (Request.message b))) as [c|] eqn:E.
  2:{ exfalso. apply Hr. now apply ruleChain_none. }
  destruct (rule_message_nonempty _ E) as (a & m & Em).
  assert (Hv : Request.validateAskRequest b = Some (Request.message b)).
  { unfold Request.validateAskRequest. rewrite Ht, Hloc, (escape_clean He).
    apply Nat.leb_le in Hl. rewrite Hl. rewrite Em. reflexivity. }
  split; [exact Hv|].
  eexists. split.
  - unfold Request.serve. rewrite Hv, (wire_handle_rule o _ E). reflexivity.
  - apply (legacywire_handle_rule o' _ E).
Qed.

End WireProperties.

Section WireRuns.

Import Server Spec Samples WireSamples.
Local Open Scope list_scope.

(** A greeting, and an oracle that answers with a list of parts. *)
Lemma oracle_failure_cases_run :
  fst (Wire.handle partsOracle (lit "apa kabar")) =
  Returned (Json500 (lit "Internal server error. Please try again later.")).
Proof.
  destruct (@oracle_failure_cases partsOracle (lit "apa kabar"))
    as (_ & _ & H); [vm_compute; reflexivity|].
  apply (H [Wire.JObj [(lit "type", Wire.JStr (lit "text"));
                       (lit "text", Wire.JStr (lit "Halo"))]]).
  reflexivity.
Defined.

Lemma servers_agree_on_clean_requests_run :
  Request.validateAskRequest atmRequest = Some (Request.message atmRequest)
  /\ exists body,
       Request.serve partsOracle atmRequest
       = (Returned (Request.Handled (Json200 body)), [])
       /\ LegacyWire.handle legacyDown (Request.message atmRequest)
          = (Returned (Legacy.Json200 body), []).
Proof.
  apply (@servers_agree_on_clean_requests partsOracle legacyDown atmRequest).
  - vm_compute. reflexivity.
  - repeat constructor.
  - apply Nat.leb_le. vm_compute. reflexivity.
  - reflexivity.
  - vm_compute. discriminate.
Defined.

End WireRuns.
